(** * Zork I (Python edition): the object model

    A shallow embedding of [zork1_python/objects] (base.py, room.py,
    item.py, container.py, actor.py) and of the flag values of
    [zork1_python/utils/flags.py].

    Python objects are mutable and shared by reference: an object's
    [contents] list holds references to its children and each child's
    [_location] refers back to its parent.  The embedding keeps that
    aliasing explicit: a world is a store from object identities to object
    records, references are identities, and a method that mutates [self]
    (or another object reached from it) is a function from stores to
    stores.  Python integers are unbounded, so [flags], [health] and the
    amounts are [Z]; [&], [|] and [~] are [Z.land], [Z.lor] and [Z.lnot],
    followed, where an operand is an [ObjectFlag], by what [IntFlag] does
    to the result ([ObjectFlag.make] below). *)

From Stdlib Require Import ZArith Lia.
From stdpp Require Import base option list strings gmap relations.

Local Open Scope string_scope.
Local Open Scope Z_scope.

(** ** utils/flags.py *)

(** [ObjectFlag] is an [IntFlag] whose members are numbered by [auto()]:
    the n-th member (counting from 0) has the value [1 << n]. *)
Module ObjectFlag.
Definition INVISIBLE  : Z := Z.shiftl 1 0.
Definition NDESCBIT   : Z := Z.shiftl 1 1.
Definition TOUCHBIT   : Z := Z.shiftl 1 2.
Definition CONTBIT    : Z := Z.shiftl 1 3.
Definition SURFACEBIT : Z := Z.shiftl 1 4.
Definition OPENBIT    : Z := Z.shiftl 1 5.
Definition TRANSBIT   : Z := Z.shiftl 1 6.
Definition SEARCHBIT  : Z := Z.shiftl 1 7.
Definition TAKEBIT    : Z := Z.shiftl 1 8.
Definition TRYTAKEBIT : Z := Z.shiftl 1 9.
Definition DOORBIT    : Z := Z.shiftl 1 10.
Definition CLIMBBIT   : Z := Z.shiftl 1 11.
Definition LIGHTBIT   : Z := Z.shiftl 1 12.
Definition ONBIT      : Z := Z.shiftl 1 13.
Definition FLAMEBIT   : Z := Z.shiftl 1 14.
Definition ACTORBIT   : Z := Z.shiftl 1 15.
Definition PERSONBIT  : Z := Z.shiftl 1 16.
Definition FEMALEBIT  : Z := Z.shiftl 1 17.
Definition WEAPONBIT  : Z := Z.shiftl 1 18.
Definition FIGHTBIT   : Z := Z.shiftl 1 19.
Definition STAGGERED  : Z := Z.shiftl 1 20.
Definition WEARBIT    : Z := Z.shiftl 1 21.
Definition FOODBIT    : Z := Z.shiftl 1 22.
Definition DRINKBIT   : Z := Z.shiftl 1 23.
Definition READBIT    : Z := Z.shiftl 1 24.
Definition BURNBIT    : Z := Z.shiftl 1 25.
Definition TOOLBIT    : Z := Z.shiftl 1 26.
Definition RMUNGBIT   : Z := Z.shiftl 1 27.
Definition RLANDBIT   : Z := Z.shiftl 1 28.
Definition SACREDBIT  : Z := Z.shiftl 1 29.
Definition VEHBIT     : Z := Z.shiftl 1 30.
Definition INTEGBIT   : Z := Z.shiftl 1 31.
Definition VOWELBIT   : Z := Z.shiftl 1 32.
Definition MOVEABLE   : Z := Z.shiftl 1 33.
Definition LOCKEDBIT  : Z := Z.shiftl 1 34.
Definition OPENABLE   : Z := Z.shiftl 1 35.

(** The 36 members are contiguous, so [_flag_mask_] and [_all_bits_] are
    both [2^36 - 1]. *)
Definition all_bits : Z := 2 ^ 36 - 1.

(** [int.bit_length]. *)
Definition bit_length (v : Z) : Z :=
  if v =? 0 then 0 else Z.log2 (Z.abs v) + 1.

(** [ObjectFlag(v)], which every [|], [&], [^] and [~] with an [ObjectFlag]
    operand ends in ([enum.Flag.__or__] and the like, of Python 3.11 and
    later).  [IntFlag] has the boundary [KEEP]: a value that is not
    negative is kept, bits above the declared ones included; a negative
    value is brought back to a value that is not negative, modulo [2^36]
    when it lies in [~all_bits .. -1] and modulo the power of two above it
    otherwise. *)
Definition make (v : Z) : Z :=
  let out_of_range := negb ((Z.lnot all_bits <=? v) && (v <=? all_bits)) in
  let v :=
    if out_of_range && (v <? 0)
    then Z.max (all_bits + 1) (2 ^ bit_length v) + v
    else v in
  if v <? 0 then all_bits + 1 + v else v.

(** [~flag]: [ObjectFlag(~flag)]. *)
Definition invert (flag : Z) : Z := make (Z.lnot flag).
End ObjectFlag.

(** Python's truth value of an integer: [bool(n)] is [n != 0]. *)
Definition truthy (n : Z) : bool := negb (n =? 0).

(** ** objects/base.py, and the fields the subclasses add *)

(** The identity of a Python object. *)
Definition oid := nat.

(** [ActionResult]. *)
Inductive ActionResult := NOT_HANDLED | HANDLED | BLOCKED.

(** [fdesc] and [ldesc] are attributes of [Item] (hence of [Container]) and
    of [Actor]; a plain [GameObject] and a [Room] do not have them. *)
Record Texts := mkTexts { fdesc : string; ldesc : string }.

(** [Room.__init__].  [room_action] is the injected callable (verb, actor,
    indirect object); only the truth value of what it returns is read, and
    the callable is taken to answer without writing to any object: what a
    handler would itself write is outside this model.  The exit table is
    not read by any method modelled here. *)
Record RoomFields := mkRoom {
  visited : bool;
  light_level : Z;
  room_action : option (string → option oid → option oid → bool)
}.

(** [Item.__init__]. *)
Record ItemFields := mkItem {
  size : Z;
  value : Z;
  treasure_value : Z;
  text : string
}.

(** [Container.__init__]. *)
Record ContainerFields := mkContainer {
  capacity : Z;
  is_surface : bool
}.

(** [Actor.__init__]. *)
Record ActorFields := mkActor {
  health : Z;
  max_health : Z;
  strength : Z;
  is_hostile : bool;
  is_staggered : bool;
  is_dead : bool
}.

(** The class of an object, with the attributes that class adds. *)
Inductive Class :=
  | IsGameObject
  | IsRoom (r : RoomFields)
  | IsItem (t : Texts) (i : ItemFields)
  | IsContainer (t : Texts) (i : ItemFields) (c : ContainerFields)
  | IsActor (t : Texts) (a : ActorFields).

(** [GameObject.__init__].  The property dictionary and the action handler
    are not read by the methods modelled here. *)
Record GameObject := mkObject {
  obj_id : string;
  synonyms : list string;
  adjectives : list string;
  short_desc : string;
  long_desc : string;
  flags : Z;
  location : option oid;
  contents : list oid;
  seen : bool;
  class : Class
}.

Definition with_flags (f : Z) (o : GameObject) : GameObject :=
  mkObject (obj_id o) (synonyms o) (adjectives o) (short_desc o) (long_desc o)
           f (location o) (contents o) (seen o) (class o).

Definition with_location (l : option oid) (o : GameObject) : GameObject :=
  mkObject (obj_id o) (synonyms o) (adjectives o) (short_desc o) (long_desc o)
           (flags o) l (contents o) (seen o) (class o).

Definition with_contents (c : list oid) (o : GameObject) : GameObject :=
  mkObject (obj_id o) (synonyms o) (adjectives o) (short_desc o) (long_desc o)
           (flags o) (location o) c (seen o) (class o).

Definition with_seen (s : bool) (o : GameObject) : GameObject :=
  mkObject (obj_id o) (synonyms o) (adjectives o) (short_desc o) (long_desc o)
           (flags o) (location o) (contents o) s (class o).

Definition with_class (k : Class) (o : GameObject) : GameObject :=
  mkObject (obj_id o) (synonyms o) (adjectives o) (short_desc o) (long_desc o)
           (flags o) (location o) (contents o) (seen o) k.

(** [isinstance(obj, Room)]. *)
Definition is_room (o : GameObject) : bool :=
  match class o with IsRoom _ => true | _ => false end.

Definition room_fields (o : GameObject) : option RoomFields :=
  match class o with IsRoom r => Some r | _ => None end.

(** [getattr(obj, 'fdesc')] and [getattr(obj, 'ldesc')], [None] when
    [hasattr] is false. *)
Definition texts (o : GameObject) : option Texts :=
  match class o with
  | IsItem t _ | IsContainer t _ _ | IsActor t _ => Some t
  | IsGameObject | IsRoom _ => None
  end.

Definition get_fdesc (o : GameObject) : option string := fdesc <$> texts o.
Definition get_ldesc (o : GameObject) : option string := ldesc <$> texts o.

(** [has_flag]: [bool(self.flags & flag)].  With [flag] an [ObjectFlag],
    hence not negative, [self.flags & flag] is not negative either and
    [ObjectFlag.make] leaves it as it is. *)
Definition has_flag (flag : Z) (self : GameObject) : bool :=
  truthy (Z.land (flags self) flag).

(** [set_flag]: [self.flags |= flag], with [flag] an [ObjectFlag]. *)
Definition set_flag (flag : Z) (self : GameObject) : GameObject :=
  with_flags (ObjectFlag.make (Z.lor (flags self) flag)) self.

(** [clear_flag]: [self.flags &= ~flag], with [flag] an [ObjectFlag]. *)
Definition clear_flag (flag : Z) (self : GameObject) : GameObject :=
  with_flags
    (ObjectFlag.make (Z.land (flags self) (ObjectFlag.invert flag))) self.

(** [is_in]: [self._location == container]. *)
Definition is_in (self : GameObject) (container : oid) : bool :=
  bool_decide (location self = Some container).

(** ** objects/container.py *)

Module Container.

(** The [is_surface] attribute; the methods below exist on containers
    only. *)
Definition surface (self : GameObject) : bool :=
  match class self with
  | IsContainer _ _ c => is_surface c
  | _ => false
  end.

Definition is_open (self : GameObject) : bool :=
  if surface self then true else has_flag ObjectFlag.OPENBIT self.

Definition is_openable (self : GameObject) : bool :=
  if surface self then false else has_flag ObjectFlag.OPENABLE self.

Definition is_transparent (self : GameObject) : bool :=
  has_flag ObjectFlag.TRANSBIT self.

Definition is_locked (self : GameObject) : bool :=
  has_flag ObjectFlag.LOCKEDBIT self.

(** Each transition returns the pair (success, message) and the
    container as the call leaves it. *)
Definition open (self : GameObject) : (bool * string) * GameObject :=
  if surface self then ((false, "You can't open that."), self)
  else if negb (is_openable self) then ((false, "You can't open that."), self)
  else if is_locked self then
    ((false, "The " +:+ short_desc self +:+ " is locked."), self)
  else if is_open self then
    ((false, "The " +:+ short_desc self +:+ " is already open."), self)
  else ((true, "Opened."), set_flag ObjectFlag.OPENBIT self).

Definition close (self : GameObject) : (bool * string) * GameObject :=
  if surface self then ((false, "You can't close that."), self)
  else if negb (is_openable self) then ((false, "You can't close that."), self)
  else if negb (is_open self) then
    ((false, "The " +:+ short_desc self +:+ " is already closed."), self)
  else ((true, "Closed."), clear_flag ObjectFlag.OPENBIT self).

Definition lock (self : GameObject) : (bool * string) * GameObject :=
  if surface self then ((false, "You can't lock that."), self)
  else if negb (is_open self) then
    if is_locked self then
      ((false, "The " +:+ short_desc self +:+ " is already locked."), self)
    else ((true, "Locked."), set_flag ObjectFlag.LOCKEDBIT self)
  else ((false, "The " +:+ short_desc self +:+ " must be closed first."), self).

Definition unlock (self : GameObject) : (bool * string) * GameObject :=
  if surface self then ((false, "You can't unlock that."), self)
  else if negb (is_locked self) then
    ((false, "The " +:+ short_desc self +:+ " isn't locked."), self)
  else ((true, "Unlocked."), clear_flag ObjectFlag.LOCKEDBIT self).

End Container.

(** ** objects/actor.py: health *)

Module Actor.

Definition with_health (h : Z) (a : ActorFields) : ActorFields :=
  mkActor h (max_health a) (strength a) (is_hostile a) (is_staggered a)
          (is_dead a).

Definition with_is_dead (d : bool) (a : ActorFields) : ActorFields :=
  mkActor (health a) (max_health a) (strength a) (is_hostile a)
          (is_staggered a) d.

(** What [Actor.__init__] stores for [health], [strength] and
    [is_hostile]. *)
Definition init (h s : Z) (hostile : bool) : ActorFields :=
  mkActor h h s hostile false false.

Definition is_alive (self : ActorFields) : bool :=
  negb (is_dead self) && (0 <? health self).

(** [take_damage] returns (actual damage, died) and the actor as the
    call leaves it. *)
Definition take_damage (amount : Z) (self : ActorFields)
  : (Z * bool) * ActorFields :=
  if is_dead self then ((0, true), self)
  else
    let actual_damage := Z.min amount (health self) in
    let self1 := with_health (health self - actual_damage) self in
    if health self1 <=? 0 then
      ((actual_damage, true), with_health 0 (with_is_dead true self1))
    else ((actual_damage, false), self1).

(** [heal] returns the amount healed and the actor as the call leaves
    it. *)
Definition heal (amount : Z) (self : ActorFields) : Z * ActorFields :=
  if is_dead self then (0, self)
  else
    let old_health := health self in
    let self1 := with_health (Z.min (health self + amount) (max_health self)) self in
    (health self1 - old_health, self1).

End Actor.

(** ** The world: a store of objects *)

(** Every reference held by a Python object ([_location], an element of
    [contents], an argument) denotes a live object.  In the store a
    reference is an identity; reading through an identity that is not
    allocated has no counterpart in Python and yields no result, and the
    properties below are stated for identities that are allocated. *)
Abbreviation World := (gmap oid GameObject).

Definition location_of (w : World) (x : oid) : option oid :=
  w !! x ≫= location.

Definition contents_of (w : World) (x : oid) : list oid :=
  default [] (contents <$> w !! x).

(** [list.remove(x)]: drops the first element equal to [x]. *)
Fixpoint list_remove (x : oid) (l : list oid) : list oid :=
  match l with
  | [] => []
  | y :: l' => if decide (y = x) then l' else y :: list_remove x l'
  end.

(** [x in l]. *)
Definition list_in (x : oid) (l : list oid) : bool := bool_decide (x ∈ l).

(** [self._location.contents.remove(self)], guarded by
    [self in self._location.contents]. *)
Definition detach (self : oid) (parent : GameObject) : GameObject :=
  if list_in self (contents parent)
  then with_contents (list_remove self (contents parent)) parent
  else parent.

(** [new_location.contents.append(self)], guarded by
    [self not in new_location.contents]. *)
Definition attach (self : oid) (parent : GameObject) : GameObject :=
  if negb (list_in self (contents parent))
  then with_contents (contents parent ++ [self]) parent
  else parent.

(** [GameObject.move_to].  The three mutations happen in the order of the
    source, each on the store the previous one left, so that they compose
    correctly when the old parent, the new parent and [self] coincide.
    The method returns nothing and raises nothing. *)
Definition move_to (self : oid) (new_location : option oid) (w : World) : World :=
  let w1 :=
    match location_of w self with
    | Some old => alter (detach self) old w
    | None => w
    end in
  let w2 := alter (with_location new_location) self w1 in
  match new_location with
  | Some new => alter (attach self) new w2
  | None => w2
  end.

(** The loops over the parent chain ([get_room], [is_accessible_to],
    [_containers_accessible]) run for as long as the chain goes on, forever
    on a cyclic one.  They are given a bound on the number of iterations;
    [None] is the answer of a run that needs more (or that reads through an
    identity that is not allocated). *)

(** [GameObject.get_room]: the loop, from [obj]. *)
Fixpoint get_room_from (fuel : nat) (w : World) (obj : option oid)
  : option (option oid) :=
  match obj with
  | None => Some None
  | Some x =>
      match fuel with
      | O => None
      | S fuel' =>
          o ← w !! x;
          if is_room o then Some (Some x)
          else get_room_from fuel' w (location o)
      end
  end.

Definition get_room (fuel : nat) (w : World) (self : oid) : option (option oid) :=
  get_room_from fuel w (Some self).

(** [GameObject._containers_accessible]: the loop, from [container]. *)
Fixpoint containers_accessible_from (fuel : nat) (w : World)
    (container : option oid) : option bool :=
  match container with
  | None => Some true
  | Some c =>
      match fuel with
      | O => None
      | S fuel' =>
          o ← w !! c;
          if negb (truthy (Z.land (flags o) ObjectFlag.OPENBIT)
                   || truthy (Z.land (flags o) ObjectFlag.TRANSBIT))
          then Some false
          else containers_accessible_from fuel' w (location o)
      end
  end.

Definition _containers_accessible (fuel : nat) (w : World) (self : oid)
  : option bool :=
  o ← w !! self; containers_accessible_from fuel w (location o).

(** The [while] loop of [is_accessible_to], from [container]. *)
Fixpoint accessible_from (fuel : nat) (w : World) (self actor : oid)
    (actor_room : option oid) (container : option oid) : option bool :=
  match container with
  | None => Some false
  | Some c =>
      match fuel with
      | O => None
      | S fuel' =>
          if bool_decide (c = actor) || bool_decide (Some c = actor_room)
          then _containers_accessible (S fuel') w self
          else
            o ← w !! c;
            accessible_from fuel' w self actor actor_room (location o)
      end
  end.

(** [GameObject.is_accessible_to].  A [Room] object is always true in a
    condition (the classes define neither [__bool__] nor [__len__]), so
    [if actor_room and ...] tests [actor_room is not None]. *)
Definition is_accessible_to (fuel : nat) (w : World) (self actor : oid)
  : option bool :=
  o ← w !! self;
  if is_in o actor then Some true
  else
    actor_room ← get_room fuel w actor;
    if match actor_room with
       | Some r => is_in o r
       | None => false
       end
    then Some true
    else accessible_from fuel w self actor actor_room (location o).

(** ** objects/room.py *)

Module Room.

(** The [for] loop of [is_lit] over [self.contents]. *)
Fixpoint lit_among (w : World) (objs : list oid) : option bool :=
  match objs with
  | [] => Some false
  | x :: rest =>
      o ← w !! x;
      if has_flag ObjectFlag.LIGHTBIT o && has_flag ObjectFlag.ONBIT o
      then Some true
      else lit_among w rest
  end.

(** [Room.is_lit]. *)
Definition is_lit (w : World) (self : oid) : option bool :=
  o ← w !! self;
  r ← room_fields o;
  if 0 <? light_level r then Some true
  else lit_among w (contents o).

(** The comprehension that selects [visible_objects]: [obj] is kept when
    [not obj.has_flag(getattr(obj, 'flags', 0) & (1 << 0))]. *)
Fixpoint visible_objects (w : World) (objs : list oid) : option (list oid) :=
  match objs with
  | [] => Some []
  | x :: rest =>
      o ← w !! x;
      vis ← visible_objects w rest;
      if negb (has_flag (Z.land (flags o) (Z.shiftl 1 0)) o)
      then Some (x :: vis)
      else Some vis
  end.

(** The [for] loop of [describe] over [visible_objects]: the lines it
    appends to [parts], and the store with the [seen] marks it sets. *)
Fixpoint describe_objects (w : World) (objs : list oid)
  : option (list string * World) :=
  match objs with
  | [] => Some ([], w)
  | x :: rest =>
      o ← w !! x;
      let later :=
        match get_ldesc o with
        | Some l => l
        | None => "There is " +:+ short_desc o +:+ " here."
        end in
      let '(line, w1) :=
        match get_fdesc o with
        | Some f =>
            if negb (seen o) then (f, <[x := with_seen true o]> w)
            else (later, w)
        | None => (later, w)
        end in
      '(lines, w2) ← describe_objects w1 rest;
      Some (line :: lines, w2)
  end.

(** The list [parts] that [describe] builds, and the store it leaves. *)
Definition describe_parts (verbose : bool) (w : World) (self : oid)
  : option (list string * World) :=
  o ← w !! self;
  r ← room_fields o;
  let parts := [short_desc o; ""] in
  let parts :=
    if verbose || negb (visited r) then (parts ++ [long_desc o])%list
    else parts in
  vis ← visible_objects w (contents o);
  match vis with
  | [] => Some (parts, w)
  | _ :: _ =>
      '(lines, w') ← describe_objects w vis;
      Some ((parts ++ [""] ++ lines)%list, w')
  end.

(** ["\n".join(parts)]. *)
Fixpoint join_lines (parts : list string) : string :=
  match parts with
  | [] => ""
  | [p] => p
  | p :: rest => p +:+ String (Ascii.ascii_of_nat 10) (join_lines rest)
  end.

(** [Room.describe]. *)
Definition describe (verbose : bool) (w : World) (self : oid)
  : option (string * World) :=
  '(parts, w') ← describe_parts verbose w self;
  Some (join_lines parts, w').

(** [Room.on_enter]: the room is marked visited when no room action
    handles the event. *)
Definition on_enter (w : World) (self actor : oid)
  : option (ActionResult * World) :=
  o ← w !! self;
  r ← room_fields o;
  let handled :=
    match room_action r with
    | Some f => f "ENTER" (Some actor) None
    | None => false
    end in
  if handled then Some (HANDLED, w)
  else
    let r' := mkRoom true (light_level r) (room_action r) in
    Some (NOT_HANDLED, <[self := with_class (IsRoom r') o]> w).

End Room.


(** ** Constructors *)

(** [GameObject.__init__]: a new object has no location, no contents and
    has not been seen.  The constructor's last step, [move_to(location)]
    when a location is given, is [create] below. *)
Definition new_object (id short long : string) (fl : Z) (k : Class)
  : GameObject :=
  mkObject id [] [] short long fl None [] false k.

(** [Room.__init__]: not visited, [light_level = 1]. *)
Definition new_room (id short long : string) (fl : Z) : GameObject :=
  new_object id short long fl (IsRoom (mkRoom false 1 None)).

(** [Item.__init__]. *)
Definition new_item (id short long fd ld : string) (fl sz : Z) : GameObject :=
  new_object id short long fl (IsItem (mkTexts fd ld) (mkItem sz 0 0 "")).

(** [Container.__init__]: [flags |= CONTBIT], and [flags |= SURFACEBIT] for
    a surface. *)
Definition new_container (id short long fd ld : string) (fl sz cap : Z)
    (surf : bool) : GameObject :=
  let fl := ObjectFlag.make (Z.lor fl ObjectFlag.CONTBIT) in
  let fl :=
    if surf then ObjectFlag.make (Z.lor fl ObjectFlag.SURFACEBIT) else fl in
  new_object id short long fl
    (IsContainer (mkTexts fd ld) (mkItem sz 0 0 "") (mkContainer cap surf)).

(** [Actor.__init__]: [flags |= ACTORBIT]. *)
Definition new_actor (id short long fd ld : string) (fl h s : Z)
    (hostile : bool) : GameObject :=
  new_object id short long (ObjectFlag.make (Z.lor fl ObjectFlag.ACTORBIT))
    (IsActor (mkTexts fd ld) (Actor.init h s hostile)).

(** Allocating a new object under the identity [x] and, as the constructor
    does, moving it to its initial location when one is given. *)
Definition create (x : oid) (o : GameObject) (loc : option oid) (w : World)
  : World :=
  let w := <[x := o]> w in
  match loc with
  | Some _ => move_to x loc w
  | None => w
  end.

(** The store that a method mutating only [self] leaves when it is called
    on the object [x], whatever it returns. *)
Definition after {A} (m : GameObject → A * GameObject) (x : oid) (w : World)
  : World :=
  alter (λ o, snd (m o)) x w.

(** ** The containment graph *)

(** [parent w x p]: the object [x] is located in [p]. *)
Definition parent (w : World) (x p : oid) : Prop := location_of w x = Some p.

(** The single-parent invariant: an object is listed, once, by the object
    it is located in, and by no other. *)
Definition forest (w : World) : Prop :=
  ∀ p, NoDup (contents_of w p) ∧
       ∀ x, x ∈ contents_of w p ↔ parent w x p.

(** What [attach] does to the list of contents. *)
Definition attached (e : oid) (l : list oid) : list oid := if list_in e l then l else l ++ [e].

(** Number of times [x] is listed in [l]. *)
Definition occurrences (x : oid) (l : list oid) : nat :=
  length (filter (λ y, y = x) l).

(** ** Sequences of health operations *)

Inductive HealthOp :=
  | TakeDamage (amount : Z)
  | Heal (amount : Z).

Definition amount_of (op : HealthOp) : Z :=
  match op with TakeDamage n | Heal n => n end.

Definition apply_op (self : ActorFields) (op : HealthOp) : ActorFields :=
  match op with
  | TakeDamage n => snd (Actor.take_damage n self)
  | Heal n => snd (Actor.heal n self)
  end.

Definition run (ops : list HealthOp) (self : ActorFields) : ActorFields :=
  fold_left apply_op ops self.

(** The invariant of the health state machine. *)
Definition health_inv (a : ActorFields) : Prop :=
  0 ≤ health a ≤ max_health a ∧ (is_dead a = true ↔ health a = 0).

(** ** States of a container *)

Definition non_surface_container (o : GameObject) : Prop :=
  ∃ t i c, class o = IsContainer t i c ∧ is_surface c = false.

Definition closed_locked (o : GameObject) : Prop :=
  Container.is_open o = false ∧ Container.is_locked o = true.

Definition open_unlocked (o : GameObject) : Prop :=
  Container.is_open o = true ∧ Container.is_locked o = false.

(** ** Sample objects and worlds *)

(** A strongbox that is locked and was never given the openable flag. *)
Definition strongbox : GameObject :=
  new_container "STRONGBOX" "strongbox" "" "" "" ObjectFlag.LOCKEDBIT 5 10 false.

(** A chest that is openable, closed and locked. *)
Definition chest : GameObject :=
  new_container "CHEST" "chest" "" "" ""
    (Z.lor ObjectFlag.OPENABLE ObjectFlag.LOCKEDBIT) 5 10 false.


(** The end-to-end scenario of the specification: room R holds an openable
    box of capacity 10, initially closed, and an actor; the box is opened,
    a coin of weight 1 is put inside, the box is closed and opened again. *)
Module Scenario.

Definition R : oid := 1%nat.
Definition box : oid := 2%nat.
Definition coin : oid := 3%nat.
Definition player : oid := 4%nat.

Definition start : World :=
  create player (new_actor "PLAYER" "player" "" "" "" 0 10 1 false) (Some R)
    (create box
       (new_container "BOX" "box" "" "" "" ObjectFlag.OPENABLE 5 10 false)
       (Some R)
       (create R (new_room "R" "R" "A bare room." 0) None ∅)).

Definition box_opened : World := after Container.open box start.

Definition coin_inside : World :=
  create coin (new_item "COIN" "coin" "" "" "" ObjectFlag.TAKEBIT 1) (Some box)
    box_opened.

Definition box_closed : World := after Container.close box coin_inside.

Definition box_reopened : World := after Container.open box box_closed.

End Scenario.

(** No object is its own ancestor. *)
Definition acyclic (w : World) : Prop := ∀ x, ¬ tc (parent w) x x.

(** What the loops over the parent chain test of an ancestor: the
    [OPENBIT] or the [TRANSBIT] bit of its [flags]. *)
Definition see_through (w : World) (x : oid) : Prop :=
  ∃ o, w !! x = Some o ∧
       truthy (Z.land (flags o) ObjectFlag.OPENBIT)
       || truthy (Z.land (flags o) ObjectFlag.TRANSBIT) = true.

(** A room whose [light_level] has been set to 0. *)
Definition dark_room (id short long : string) (fl : Z) : GameObject :=
  with_class (IsRoom (mkRoom false 0 None)) (new_room id short long fl).

(** A dark cellar with an open sack that holds a lamp switched on, and a
    thief who carries a torch switched on. *)
Module Cellar.

Definition cellar : oid := 1%nat.
Definition sack : oid := 2%nat.
Definition lamp : oid := 3%nat.
Definition thief : oid := 4%nat.
Definition torch : oid := 5%nat.

Definition lit : Z := Z.lor ObjectFlag.LIGHTBIT ObjectFlag.ONBIT.

Definition empty_cellar : World :=
  create cellar (dark_room "CELLAR" "Cellar" "A damp cellar." 0) None ∅.

Definition lamp_in_sack : World :=
  create lamp (new_item "LAMP" "lamp" "" "" "" lit 5) (Some sack)
    (create sack
       (new_container "SACK" "sack" "" "" ""
          (Z.lor ObjectFlag.OPENABLE ObjectFlag.OPENBIT) 5 10 false)
       (Some cellar) empty_cellar).

Definition torch_carried : World :=
  create torch (new_item "TORCH" "torch" "" "" "" lit 5) (Some thief)
    (create thief (new_actor "THIEF" "thief" "" "" "" 0 10 1 true)
       (Some cellar) empty_cellar).

Definition lamp_on_floor : World :=
  create lamp (new_item "LAMP" "lamp" "" "" "" lit 5) (Some cellar)
    empty_cellar.

End Cellar.

(** A hall with a rug flagged no-description and a ghost flagged
    invisible. *)
Module Hall.

Definition hall : oid := 1%nat.
Definition rug : oid := 2%nat.
Definition ghost : oid := 3%nat.

Definition world : World :=
  create ghost
    (new_item "GHOST" "ghost" "" "A ghost hovers here." "The ghost is here."
       ObjectFlag.INVISIBLE 5)
    (Some hall)
    (create rug
       (new_item "RUG" "rug" "" "A rug covers the floor." "The rug is here."
          ObjectFlag.NDESCBIT 5)
       (Some hall)
       (create hall (new_room "HALL" "Hall" "A long hall." 0) None ∅)).

End Hall.

(** The stores differ at most in [seen] marks set on objects of [listed]. *)
Definition seen_marked (listed : list oid) (w w' : World) : Prop :=
  ∀ x, w' !! x = w !! x ∨
       (x ∈ listed ∧ ∃ o, w !! x = Some o ∧ w' !! x = Some (with_seen true o)).

From Stdlib Require Import DecimalString.

(** * Further methods of the object model *)

(** ** utils/flags.py: [toggle_flag] *)

(** [toggle_flag(obj, flag)]: [obj.flags ^= flag], with [flag] an
    [ObjectFlag]; every game object has the [flags] attribute the function
    first tests for. *)
Definition toggle_flag (flag : Z) (obj : GameObject) : GameObject :=
  with_flags (ObjectFlag.make (Z.lxor (flags obj) flag)) obj.

(** ** objects/item.py *)

Module Item.

(** The attributes [Item.__init__] adds; [Container] inherits them. *)
Definition item_fields (o : GameObject) : option ItemFields :=
  match class o with
  | IsItem _ i | IsContainer _ i _ => Some i
  | _ => None
  end.

(** [hasattr(obj, 'get_weight')]. *)
Definition has_get_weight (o : GameObject) : bool :=
  match item_fields o with Some _ => true | None => false end.

Definition is_takeable (self : GameObject) : bool :=
  has_flag ObjectFlag.TAKEBIT self.

Definition is_weapon (self : GameObject) : bool :=
  has_flag ObjectFlag.WEAPONBIT self.

Definition is_light_source (self : GameObject) : bool :=
  has_flag ObjectFlag.LIGHTBIT self.

Definition is_on (self : GameObject) : bool :=
  has_flag ObjectFlag.ONBIT self.

(** [bool(self.text)]: a string is true when it is not empty. *)
Definition nonempty (s : string) : bool :=
  match s with EmptyString => false | String _ _ => true end.

Definition is_readable (self : GameObject) (i : ItemFields) : bool :=
  has_flag ObjectFlag.READBIT self || nonempty (text i).

(** [turn_on] and [turn_off] return whether they succeeded, and the item
    as the call leaves it. *)
Definition turn_on (self : GameObject) : bool * GameObject :=
  if negb (is_light_source self) then (false, self)
  else (true, set_flag ObjectFlag.ONBIT self).

Definition turn_off (self : GameObject) : bool * GameObject :=
  if negb (is_light_source self) then (false, self)
  else (true, clear_flag ObjectFlag.ONBIT self).

(** [read_text]: [None] when the item is not readable. *)
Definition read_text (self : GameObject) (i : ItemFields) : option string :=
  if negb (is_readable self i) then None else Some (text i).

(** The [for] loop of [get_weight]: [weigh] is the recursive call
    [obj.get_weight()], made for the children that have the method (items
    and containers); no other class has a [size], so the children of
    other classes add nothing. *)
Fixpoint contents_weight (w : World) (weigh : oid → option Z)
    (objs : list oid) : option Z :=
  match objs with
  | [] => Some 0
  | x :: rest =>
      o ← w !! x;
      mine ← (if has_get_weight o then weigh x else Some 0);
      others ← contents_weight w weigh rest;
      Some (mine + others)
  end.

(** [Item.get_weight].  The recursion follows [contents] downwards and
    does not end on a cyclic graph; [fuel] bounds its depth. *)
Fixpoint get_weight (fuel : nat) (w : World) (self : oid) : option Z :=
  match fuel with
  | O => None
  | S fuel' =>
      o ← w !! self;
      i ← item_fields o;
      inside ← contents_weight w (get_weight fuel' w) (contents o);
      Some (size i + inside)
  end.

End Item.

(** ** objects/container.py: capacity and visible contents *)

(** The comprehension [[obj for obj in objs if not
    obj.has_flag(ObjectFlag.INVISIBLE)]]. *)
Fixpoint not_invisible (w : World) (objs : list oid) : option (list oid) :=
  match objs with
  | [] => Some []
  | x :: rest =>
      o ← w !! x;
      vis ← not_invisible w rest;
      if negb (has_flag ObjectFlag.INVISIBLE o) then Some (x :: vis)
      else Some vis
  end.

(** [Container.get_visible_contents]. *)
Definition get_visible_contents (w : World) (self : oid) : option (list oid) :=
  o ← w !! self;
  if Container.is_open o || Container.is_transparent o || Container.surface o
  then not_invisible w (contents o)
  else Some [].

(** [o.get_weight() if hasattr(o, 'get_weight') else getattr(o, 'size', 5)]:
    an object that is neither an item nor a container has no [size] and
    counts 5. *)
Definition weight_or_default (fuel : nat) (w : World) (x : oid) : option Z :=
  o ← w !! x;
  if Item.has_get_weight o then Item.get_weight fuel w x else Some 5.

(** The [sum(...)] over [self.contents] in [can_hold]. *)
Fixpoint current_weight (fuel : nat) (w : World) (objs : list oid) : option Z :=
  match objs with
  | [] => Some 0
  | x :: rest =>
      mine ← weight_or_default fuel w x;
      others ← current_weight fuel w rest;
      Some (mine + others)
  end.

Definition container_fields (o : GameObject) : option ContainerFields :=
  match class o with IsContainer _ _ c => Some c | _ => None end.

(** [Container.can_hold]. *)
Definition can_hold (fuel : nat) (w : World) (self obj : oid) : option bool :=
  o ← w !! self;
  c ← container_fields o;
  current ← current_weight fuel w (contents o);
  obj_weight ← weight_or_default fuel w obj;
  Some (current + obj_weight <=? capacity c).

(** ** objects/room.py: visible objects, look, exits *)

(** [Room.get_visible_objects]. *)
Definition get_visible_objects (w : World) (self : oid) : option (list oid) :=
  o ← w !! self;
  _ ← room_fields o;
  not_invisible w (contents o).

(** [Room.on_look]: the method itself writes nothing. *)
Definition on_look (w : World) (self : oid) : option ActionResult :=
  o ← w !! self;
  r ← room_fields o;
  match room_action r with
  | Some f => if f "LOOK" None None then Some HANDLED else Some NOT_HANDLED
  | None => Some NOT_HANDLED
  end.

(** An entry of the exit table: a room, or a function without arguments
    that is called to obtain the room ([exit_fn] is what the call
    returns). *)
Inductive Exit :=
  | ExitRoom (r : oid)
  | ExitFunction (exit_fn : option oid).

Section exits.
(** [str.upper]. *)
Context (upper : string → string).

(** [Room.get_exit]. *)
Definition get_exit (exits : gmap string Exit) (direction : string)
  : option oid :=
  match exits !! upper direction with
  | None => None
  | Some (ExitFunction exit_fn) => exit_fn
  | Some (ExitRoom r) => Some r
  end.

(** [Room.add_exit]. *)
Definition add_exit (direction : string) (target : Exit)
    (exits : gmap string Exit) : gmap string Exit :=
  <[upper direction := target]> exits.

(** [Room.remove_exit]. *)
Definition remove_exit (direction : string) (exits : gmap string Exit)
  : gmap string Exit :=
  if bool_decide (is_Some (exits !! upper direction))
  then delete (upper direction) exits
  else exits.

End exits.

(** ** objects/actor.py: inventory and combat *)


(** [Actor.drop_item]. *)
Definition drop_item (fuel : nat) (w : World) (self item : oid)
  : option (bool * World) :=
  o ← w !! self;
  if negb (list_in item (contents o)) then Some (false, w)
  else
    room ← get_room fuel w self;
    match room with
    | Some r => Some (true, move_to item (Some r) w)
    | None => Some (false, w)
    end.

(** [str(n)] for an integer. *)
Definition str_int (n : Z) : string := NilZero.string_of_int (Z.to_int n).

(** [properties.get(name, default)] on a property dictionary. *)
Definition get_property {V} (properties : gmap string V) (name : string)
    (dflt : V) : V :=
  default dflt (properties !! name).

(** [properties[name] = value]. *)
Definition set_property {V} (name : string) (value : V)
    (properties : gmap string V) : gmap string V :=
  <[name := value]> properties.

(** The damage before the random factor: the attacker's strength, plus the
    weapon's [damage] property (1 when it has none) when the object given
    carries the weapon flag. *)
Definition base_damage (self : ActorFields)
    (weapon : option (GameObject * gmap string Z)) : Z :=
  match weapon with
  | Some (wo, props) =>
      if has_flag ObjectFlag.WEAPONBIT wo
      then strength self + get_property props "damage" 1
      else strength self
  | None => strength self
  end.

Section attack.
(** [random.randint(a, b)]: the number drawn, [None] for the [ValueError]
    of an empty range. *)
Context (randint : Z → Z → option Z).

(** [Actor.attack].  The weapon, when one is given, is the object and its
    property dictionary; the result is the triple returned and the target
    as the call leaves it. *)
Definition attack (self : ActorFields) (target_desc : string)
    (target : ActorFields) (weapon : option (GameObject * gmap string Z))
  : option ((bool * Z * string) * ActorFields) :=
  if negb (Actor.is_alive self) then
    Some ((false, 0, "You are dead and cannot attack."), target)
  else if negb (Actor.is_alive target) then
    Some ((false, 0, "The " +:+ target_desc +:+ " is already dead."), target)
  else
    let base_damage := base_damage self weapon in
    damage ← randint (base_damage `div` 2) (base_damage * 2);
    let '((actual_damage, died), target') := Actor.take_damage damage target in
    let message :=
      if died then "The " +:+ target_desc +:+ " is killed!"
      else if 0 <? actual_damage then
        "The " +:+ target_desc +:+ " takes " +:+ str_int actual_damage
        +:+ " damage."
      else "The attack misses!" in
    Some ((0 <? actual_damage, actual_damage, message), target').

End attack.

(** What [random.randint] guarantees: a [ValueError] for an empty range,
    and otherwise a number within the bounds, both included. *)
Definition randint_spec (randint : Z → Z → option Z) : Prop :=
  ∀ a b, (b < a → randint a b = None) ∧
         (a ≤ b → ∃ r, randint a b = Some r ∧ a ≤ r ≤ b).

(** A random source for tests: always the lowest number of the range. *)
Definition lowest_roll (a b : Z) : option Z :=
  if b <? a then None else Some a.

(** A sword: a weapon whose [damage] property is 3. *)
Definition sword : GameObject * gmap string Z :=
  (new_item "SWORD" "sword" "" "" "" ObjectFlag.WEAPONBIT 10,
   set_property "damage" 3 ∅).

(** ** utils/output.py *)

Module Output.

(** An argument of [tell]: a string, a game object, or any other value,
    given by what [str] returns for it and by its [desc] attribute when it
    has one. *)
Inductive Arg :=
  | Str (s : string)
  | Obj (o : GameObject)
  | Other (repr : string) (desc : option string).

(** [str(arg)]; for a game object this is [GameObject.__str__], that is
    [self.short_desc or self.id]. *)
Definition str (a : Arg) : string :=
  match a with
  | Str s => s
  | Obj o => if Item.nonempty (short_desc o) then short_desc o else obj_id o
  | Other repr _ => repr
  end.

(** [OutputManager._get_description]. *)
Definition _get_description (obj : Arg) : string :=
  match obj with
  | Obj o => short_desc o
  | Other _ (Some d) => d
  | Other repr None => repr
  | Str s => s
  end.

(** [c.lower()] for a character. *)
Definition lower (c : Ascii.ascii) : Ascii.ascii :=
  let n := Ascii.nat_of_ascii c in
  if (65 <=? n)%nat && (n <=? 90)%nat then Ascii.ascii_of_nat (n + 32)
  else c.

(** [c in 'aeiou'] for a character. *)
Definition in_aeiou (c : Ascii.ascii) : bool :=
  existsb (Ascii.eqb c) (String.list_ascii_of_string "aeiou").

(** [OutputManager._get_article]. *)
Definition _get_article (obj : Arg) : string :=
  match _get_description obj with
  | String c _ => if in_aeiou (lower c) then "an" else "a"
  | EmptyString => "a"
  end.

Definition newline : string := String (Ascii.ascii_of_nat 10) EmptyString.

(** The [while] loop of [tell]: the list [output_parts], or [None] for the
    [IndexError] of reading [args[i + 1]] past the end. *)
Fixpoint output_parts (args : list Arg) : option (list string) :=
  match args with
  | [] => Some []
  | Str s :: rest =>
      if String.eqb s "CR" || String.eqb s "CRLF" then
        cons newline <$> output_parts rest
      else if String.eqb s "D" && negb (bool_decide (rest = [])) then
        match rest with
        | obj :: rest' => cons (_get_description obj) <$> output_parts rest'
        | [] => None
        end
      else if String.eqb s "A"
              || String.eqb s "AN" && negb (bool_decide (rest = [])) then
        match rest with
        | obj :: rest' =>
            cons (_get_article obj +:+ " " +:+ _get_description obj)
              <$> output_parts rest'
        | [] => None
        end
      else if String.eqb s "N" && negb (bool_decide (rest = [])) then
        match rest with
        | obj :: rest' => cons (str obj) <$> output_parts rest'
        | [] => None
        end
      else cons s <$> output_parts rest
  | Obj o :: rest => cons (_get_description (Obj o)) <$> output_parts rest
  | Other repr d :: rest => cons repr <$> output_parts rest
  end.

(** ['' .join(parts)]. *)
Definition join (parts : list string) : string :=
  foldr String.append EmptyString parts.

(** [OutputManager.tell]: the text printed, [end] included. *)
Definition tell (args : list Arg) (end_ : string) : option string :=
  parts ← output_parts args; Some (join parts +:+ end_).

(** [print_room_header] and [print_error]: [tell] of the one string. *)
Definition print_room_header (room_name : string) : option string :=
  tell [Str room_name] newline.

Definition print_error (message : string) : option string :=
  tell [Str message] newline.

(** The [for] loop of [print_inventory]. *)
Fixpoint print_items (items : list Arg) : option string :=
  match items with
  | [] => Some EmptyString
  | item :: rest =>
      line ← tell [Str ("  " +:+ _get_description item)] newline;
      more ← print_items rest;
      Some (line +:+ more)
  end.

(** [OutputManager.print_inventory]: all that the calls of [tell] print. *)
Definition print_inventory (items : list Arg) : option string :=
  match items with
  | [] => tell [Str "You are empty-handed."] newline
  | _ :: _ =>
      head ← tell [Str "You are carrying:"] newline;
      lines ← print_items items;
      Some (head +:+ lines)
  end.

End Output.

(** ** Sample objects for the properties below *)

(** A lamp that is a light source and is switched off. *)
Definition brass_lamp : GameObject :=
  new_item "LAMP" "brass lamp" "" "" "" ObjectFlag.LIGHTBIT 5.

(** An openable box, closed and unlocked. *)
Definition plain_box : GameObject :=
  new_container "BOX" "box" "" "" "" ObjectFlag.OPENABLE 5 10 false.

(** A table: a surface. *)
Definition table : GameObject :=
  new_container "TABLE" "table" "" "" "" 0 20 50 true.

(** A container is never both open and locked. *)
Definition not_open_and_locked (o : GameObject) : Prop :=
  Container.is_open o && Container.is_locked o = false.

(** The dark cellar with the brass lamp, switched off, on the floor. *)
Definition lamp_off_on_floor : World :=
  create Cellar.lamp brass_lamp (Some Cellar.cellar) Cellar.empty_cellar.

(** Whether the object [x] is allocated and not flagged invisible. *)
Definition visible_in (w : World) (x : oid) : bool :=
  match w !! x with
  | Some o => negb (has_flag ObjectFlag.INVISIBLE o)
  | None => false
  end.

(** [str.upper] on the letters a to z; every other character is kept. *)
Definition upper_char (c : Ascii.ascii) : Ascii.ascii :=
  let n := Ascii.nat_of_ascii c in
  if (97 <=? n)%nat && (n <=? 122)%nat then Ascii.ascii_of_nat (n - 32)
  else c.

Fixpoint upper_ascii (s : string) : string :=
  match s with
  | EmptyString => EmptyString
  | String c rest => String (upper_char c) (upper_ascii rest)
  end.

(** A hallway, not yet visited, with a leaflet that has a first-seen
    text. *)
Module Hallway.

Definition hallway : oid := 1%nat.
Definition leaflet : oid := 2%nat.

Definition hallway_room : GameObject :=
  new_room "HALLWAY" "Hallway" "A narrow hallway." 0.

Definition world : World :=
  create leaflet
    (new_item "LEAFLET" "leaflet" "" "A leaflet lies on the floor, unread."
       "There is a leaflet here." 0 1)
    (Some hallway)
    (create hallway hallway_room None ∅).

End Hallway.

(** An object that [describe] has nothing to mark on: it has no first-seen
    text attribute, or has been seen. *)
Definition settled (w : World) (x : oid) : Prop :=
  ∃ o, w !! x = Some o ∧ (get_fdesc o = None ∨ seen o = true).

(** The line [describe] appends for an object that has no first-seen text
    attribute or has been seen: its [ldesc] where it has that attribute,
    the generic line otherwise. *)
Definition later_line (o : GameObject) : string :=
  match get_ldesc o with
  | Some l => l
  | None => "There is " +:+ short_desc o +:+ " here."
  end.

(** The line [describe] appends for an object: its [fdesc] where it has
    that attribute and has not been seen, the later line otherwise. *)
Definition first_line (o : GameObject) : string :=
  match get_fdesc o with
  | Some f => if seen o then later_line o else f
  | None => later_line o
  end.

(** The lines of the objects of [objs], each read in the store [w]. *)
Definition lines_of (line : GameObject → string) (w : World)
    (objs : list oid) : list string :=
  (λ x, from_option line "" (w !! x)) <$> objs.

(** What [describe] puts before the lines of the objects: the name, an
    empty line, the long description in verbose mode or on a room not yet
    visited, and one more empty line when objects are listed. *)
Definition describe_head (verbose : bool) (o : GameObject) (r : RoomFields)
    (vis : list oid) : list string :=
  ([short_desc o; ""]
   ++ (if verbose || negb (visited r) then [long_desc o] else [])
   ++ (match vis with [] => [] | _ :: _ => [""] end))%list.

(** A hall whose own flags carry the open bit, with an open box that
    holds a coin, and an actor. *)
Definition open_hall : World :=
  alter (set_flag ObjectFlag.OPENBIT) Scenario.R Scenario.box_reopened.

(** The scenario with the coin taken out of the box and held by the
    player. *)
Definition coin_held : World :=
  move_to Scenario.coin (Some Scenario.player) Scenario.coin_inside.

(** The strings [tell] treats as markers. *)
Definition markers : list string := ["CR"; "CRLF"; "D"; "A"; "AN"; "N"].

(** The line [print_inventory] prints for an item. *)
Definition inventory_line (item : Output.Arg) : string :=
  "  " +:+ Output._get_description item +:+ Output.newline.
(** * Properties *)

(** ** Single-bit flags *)

Section flag_bits.
Implicit Types (n m : Z) (f v : Z) (o : GameObject).

Lemma land_bit f n :
  0 ≤ n → Z.land f (Z.shiftl 1 n) = Z.b2z (Z.testbit f n) * 2 ^ n.
Proof.
  intros Hn. rewrite Z.shiftl_1_l. apply Z.bits_inj'. intros k Hk.
  rewrite Z.land_spec, Z.pow2_bits_eqb by lia.
  destruct (Z.eqb_spec n k) as [->|Hne].
  - rewrite andb_true_r.
    rewrite Z.mul_pow2_bits by lia. rewrite Z.sub_diag.
    by destruct (Z.testbit f k).
  - rewrite andb_false_r. symmetry.
    destruct (Z.testbit f n); simpl.
    + rewrite Z.mul_1_l, Z.pow2_bits_eqb by lia.
      by apply Z.eqb_neq.
    + apply Z.bits_0.
Qed.

Lemma truthy_land_bit f n :
  0 ≤ n → truthy (Z.land f (Z.shiftl 1 n)) = Z.testbit f n.
Proof.
  intros Hn. rewrite land_bit by done. unfold truthy.
  destruct (Z.testbit f n); simpl.
  - assert (0 < 2 ^ n) by (apply Z.pow_pos_nonneg; lia).
    destruct (Z.eqb_spec (1 * 2 ^ n) 0); [lia | done].
  - done.
Qed.

Lemma has_flag_bit o n :
  0 ≤ n → has_flag (Z.shiftl 1 n) o = Z.testbit (flags o) n.
Proof. apply truthy_land_bit. Qed.

(** [ObjectFlag.make] keeps a value that is not negative, and never
    changes one of the 36 declared bits. *)
Lemma make_nonneg v : 0 ≤ v → ObjectFlag.make v = v.
Proof.
  intros Hv. unfold ObjectFlag.make. cbv zeta.
  assert ((v <? 0) = false) as E by (apply Z.ltb_ge; lia).
  by rewrite E, andb_false_r, E.
Qed.

Lemma make_neg v :
  v < 0 → ∃ k, 36 ≤ k ∧ ObjectFlag.make v = v mod 2 ^ k.
Proof.
  intros Hv. unfold ObjectFlag.make, ObjectFlag.all_bits. cbv zeta.
  change (Z.lnot (2 ^ 36 - 1)) with (- 2 ^ 36).
  assert ((v <=? 2 ^ 36 - 1) = true) as E1 by (apply Z.leb_le; lia).
  assert ((v <? 0) = true) as E2 by (apply Z.ltb_lt; lia).
  rewrite E1, E2, !andb_true_r.
  destruct (Z.leb_spec (- 2 ^ 36) v) as [Hr|Hr]; cbn [negb].
  - exists 36. split; [done|]. rewrite E2.
    apply Z.mod_unique with (q := -1); lia.
  - unfold ObjectFlag.bit_length.
    replace (v =? 0) with false by (symmetry; apply Z.eqb_neq; lia).
    rewrite Z.abs_neq by lia.
    pose proof (Z.log2_spec (- v) ltac:(lia)) as [_ Hlog].
    assert (36 ≤ Z.log2 (- v)) as Hk.
    { rewrite <- (Z.log2_pow2 36) by lia. apply Z.log2_le_mono. lia. }
    rewrite <- Z.add_1_r in Hlog.
    set (k := Z.log2 (- v) + 1) in *.
    assert (2 ^ 36 < 2 ^ k) by (apply Z.pow_lt_mono_r; lia).
    rewrite Z.max_r by lia.
    exists k. split; [lia|].
    replace (2 ^ k + v <? 0) with false by (symmetry; apply Z.ltb_ge; lia).
    apply Z.mod_unique with (q := -1); lia.
Qed.

Lemma make_ge_0 v : 0 ≤ ObjectFlag.make v.
Proof.
  destruct (Z.lt_ge_cases v 0) as [Hv|Hv].
  - destruct (make_neg v Hv) as (k & Hk & ->).
    apply Z.mod_pos_bound, Z.pow_pos_nonneg; lia.
  - by rewrite make_nonneg.
Qed.

Lemma make_testbit v n :
  0 ≤ n < 36 → Z.testbit (ObjectFlag.make v) n = Z.testbit v n.
Proof.
  intros Hn. destruct (Z.lt_ge_cases v 0) as [Hv|Hv].
  - destruct (make_neg v Hv) as (k & Hk & ->).
    apply Z.mod_pow2_bits_low. lia.
  - by rewrite make_nonneg.
Qed.

Lemma has_flag_set_flag o n m :
  0 ≤ n < 36 → 0 ≤ m →
  has_flag (Z.shiftl 1 n) (set_flag (Z.shiftl 1 m) o)
  = has_flag (Z.shiftl 1 n) o || (m =? n).
Proof.
  intros Hn Hm. rewrite !has_flag_bit by lia. simpl.
  rewrite make_testbit by done.
  rewrite Z.lor_spec, Z.shiftl_1_l, Z.pow2_bits_eqb by done. done.
Qed.

Lemma has_flag_clear_flag o n m :
  0 ≤ n < 36 → 0 ≤ m →
  has_flag (Z.shiftl 1 n) (clear_flag (Z.shiftl 1 m) o)
  = has_flag (Z.shiftl 1 n) o && negb (m =? n).
Proof.
  intros Hn Hm. rewrite !has_flag_bit by lia. simpl.
  unfold ObjectFlag.invert. rewrite make_testbit, Z.land_spec by done.
  rewrite make_testbit by done.
  rewrite Z.lnot_spec, Z.shiftl_1_l, Z.pow2_bits_eqb by lia.
  done.
Qed.

End flag_bits.

(** [set_flag] and [clear_flag] touch nothing but [flags]. *)
Lemma class_with_flags f o : class (with_flags f o) = class o.
Proof. done. Qed.

Lemma surface_set_flag b o :
  Container.surface (set_flag b o) = Container.surface o.
Proof. done. Qed.

Lemma surface_clear_flag b o :
  Container.surface (clear_flag b o) = Container.surface o.
Proof. done. Qed.

(** ** The container state machine *)

Lemma non_surface_container_surface o :
  non_surface_container o → Container.surface o = false.
Proof. intros (t & i & c & Hc & Hs). unfold Container.surface. by rewrite Hc. Qed.

(** C7, as stated, fails: a non-surface container that is closed and locked
    but lacks the openable flag answers [open()] with "You can't open
    that." rather than with the locked message, and [open()] still fails
    after a successful [unlock()]. *)
Lemma open_locked_counterexample :
  non_surface_container strongbox ∧ closed_locked strongbox ∧
  fst (Container.open strongbox) = (false, "You can't open that.") ∧
  fst (Container.open strongbox) ≠ (false, "The strongbox is locked.") ∧
  fst (Container.unlock strongbox) = (true, "Unlocked.") ∧
  fst (Container.open (snd (Container.unlock strongbox)))
    = (false, "You can't open that.").
Proof.
  split; [by exists (mkTexts "" ""), (mkItem 5 0 0 ""), (mkContainer 10 false)|].
  split; [done|]. repeat split; try done.
Qed.

(** C7, amended: for every non-surface container that carries the openable
    flag and is closed and locked, [open()] fails with the locked message
    and changes nothing; [unlock()] succeeds, [open()] then succeeds, and
    the container ends open and unlocked. *)
Theorem open_locked_then_unlock (self : GameObject) :
  non_surface_container self →
  has_flag ObjectFlag.OPENABLE self = true →
  closed_locked self →
  Container.open self
    = ((false, "The " +:+ short_desc self +:+ " is locked."), self) ∧
  closed_locked (snd (Container.open self)) ∧
  fst (Container.unlock self) = (true, "Unlocked.") ∧
  fst (Container.open (snd (Container.unlock self))) = (true, "Opened.") ∧
  open_unlocked (snd (Container.open (snd (Container.unlock self)))).
Proof.
  intros Hns Hop [Hclosed Hlocked].
  pose proof (non_surface_container_surface _ Hns) as Hs.
  assert (Hopen : has_flag ObjectFlag.OPENBIT self = false).
  { revert Hclosed. unfold Container.is_open. by rewrite Hs. }
  unfold Container.is_locked in Hlocked.
  assert (Container.open self
          = ((false, "The " +:+ short_desc self +:+ " is locked."), self)) as E1.
  { unfold Container.open, Container.is_openable, Container.is_locked.
    by rewrite Hs, Hop, Hlocked. }
  assert (Container.unlock self
          = ((true, "Unlocked."), clear_flag ObjectFlag.LOCKEDBIT self)) as E2.
  { unfold Container.unlock, Container.is_locked. by rewrite Hs, Hlocked. }
  set (self1 := clear_flag ObjectFlag.LOCKEDBIT self) in *.
  assert (Hs1 : Container.surface self1 = false) by done.
  assert (Hop1 : has_flag ObjectFlag.OPENABLE self1 = true).
  { unfold self1, ObjectFlag.OPENABLE, ObjectFlag.LOCKEDBIT.
    rewrite has_flag_clear_flag by lia. by rewrite andb_true_r. }
  assert (Hlocked1 : has_flag ObjectFlag.LOCKEDBIT self1 = false).
  { unfold self1, ObjectFlag.LOCKEDBIT.
    rewrite has_flag_clear_flag by lia. by rewrite andb_false_r. }
  assert (Hopen1 : has_flag ObjectFlag.OPENBIT self1 = false).
  { unfold self1, ObjectFlag.OPENBIT, ObjectFlag.LOCKEDBIT.
    rewrite has_flag_clear_flag by lia.
    unfold ObjectFlag.OPENBIT in Hopen. by rewrite Hopen. }
  assert (Container.open self1
          = ((true, "Opened."), set_flag ObjectFlag.OPENBIT self1)) as E3.
  { unfold Container.open, Container.is_openable, Container.is_locked,
      Container.is_open.
    by rewrite Hs1, Hop1, Hlocked1, Hopen1. }
  rewrite E1, E2. simpl. rewrite E3. simpl.
  repeat split; try done.
  - unfold Container.is_open. rewrite surface_set_flag, Hs1.
    unfold ObjectFlag.OPENBIT. rewrite has_flag_set_flag by lia.
    by rewrite orb_true_r.
  - unfold Container.is_locked, ObjectFlag.OPENBIT, ObjectFlag.LOCKEDBIT.
    rewrite has_flag_set_flag by lia.
    unfold ObjectFlag.LOCKEDBIT in Hlocked1. by rewrite Hlocked1.
Qed.

Lemma open_locked_then_unlock_witness :
  Container.open chest = ((false, "The chest is locked."), chest) ∧
  open_unlocked (snd (Container.open (snd (Container.unlock chest)))).
Proof.
  assert (Hns : non_surface_container chest).
  { by exists (mkTexts "" ""), (mkItem 5 0 0 ""), (mkContainer 10 false). }
  assert (Hop : has_flag ObjectFlag.OPENABLE chest = true) by reflexivity.
  assert (Hcl : closed_locked chest) by (split; reflexivity).
  destruct (open_locked_then_unlock chest Hns Hop Hcl) as (H1 & _ & _ & _ & H5).
  split; [exact H1 | exact H5].
Defined.

(** C9: a non-surface container without the openable flag refuses both
    [open()] and [close()], whatever its open and locked bits are, and is
    left as it was. *)
Theorem not_openable_refused (self : GameObject) :
  non_surface_container self →
  has_flag ObjectFlag.OPENABLE self = false →
  Container.open self = ((false, "You can't open that."), self) ∧
  Container.close self = ((false, "You can't close that."), self).
Proof.
  intros Hns Hop.
  pose proof (non_surface_container_surface _ Hns) as Hs.
  unfold Container.open, Container.close, Container.is_openable.
  by rewrite Hs, Hop.
Qed.

Lemma not_openable_refused_witness :
  Container.open strongbox = ((false, "You can't open that."), strongbox) ∧
  Container.close strongbox = ((false, "You can't close that."), strongbox).
Proof.
  apply (not_openable_refused strongbox).
  - by exists (mkTexts "" ""), (mkItem 5 0 0 ""), (mkContainer 10 false).
  - reflexivity.
Defined.

(** ** The health state machine *)

Lemma take_damage_dead amount self :
  is_dead self = true → Actor.take_damage amount self = ((0, true), self).
Proof. intros Hd. unfold Actor.take_damage. by rewrite Hd. Qed.

Lemma heal_dead amount self :
  is_dead self = true → Actor.heal amount self = (0, self).
Proof. intros Hd. unfold Actor.heal. by rewrite Hd. Qed.

(** No operation changes a dead actor. *)
Lemma run_dead ops self : is_dead self = true → run ops self = self.
Proof.
  intros Hd. induction ops as [|op ops IH]; [done|].
  unfold run in *. simpl.
  destruct op as [n|n]; simpl.
  - by rewrite take_damage_dead.
  - by rewrite heal_dead.
Qed.

(** C4: [take_damage(amount)] on a dead actor returns (0, True) and changes
    nothing.  On an actor that is not dead the damage applied is the
    amount clamped to the current health, the health left is not negative,
    the actor is dead afterwards exactly when the health left is 0, the
    second component returned says whether it is, and once dead no
    sequence of further [take_damage] and [heal] calls changes the actor. *)
Theorem take_damage_clamps (amount : Z) (self : ActorFields) :
  let '((actual, died), self') := Actor.take_damage amount self in
  if is_dead self then
    actual = 0 ∧ died = true ∧ self' = self
  else
    actual = Z.min amount (health self) ∧
    health self' = health self - actual ∧
    0 ≤ health self' ∧
    max_health self' = max_health self ∧
    (is_dead self' = true ↔ health self' = 0) ∧
    died = is_dead self' ∧
    (died = true → ∀ ops, run ops self' = self').
Proof.
  unfold Actor.take_damage.
  destruct (is_dead self) eqn:Hd; [done|].
  simpl. destruct (Z.leb_spec (health self - Z.min amount (health self)) 0)
    as [Hle|Hgt]; simpl.
  - repeat split; try done; try lia.
    intros _ ops. by apply run_dead.
  - rewrite Hd. repeat split; try done; try lia.
Qed.

(** The scenario of the specification: 15 points of damage on an actor with
    10 points of health, then [heal(5)]. *)
Example take_damage_15_of_10 :
  let self := Actor.init 10 1 false in
  let '(r, self') := Actor.take_damage 15 self in
  r = (10, true) ∧ is_dead self' = true ∧ health self' = 0 ∧
  Actor.heal 5 self' = (0, self').
Proof. done. Qed.

(** C5, as stated, fails for negative amounts: [heal(-20)] takes a living
    actor with 10 of 10 points to -10 points without marking it dead, and
    [take_damage(-5)] takes it to 15 points, above [max_health]. *)
Lemma health_bounds_counterexample :
  let self := Actor.init 10 1 false in
  let healed := run [Heal (-20)] self in
  let damaged := run [TakeDamage (-5)] self in
  health_inv self ∧
  health healed = -10 ∧ is_dead healed = false ∧
  ¬ (0 ≤ health healed ≤ max_health healed) ∧
  health damaged = 15 ∧ max_health damaged = 10 ∧
  ¬ (0 ≤ health damaged ≤ max_health damaged).
Proof.
  simpl. repeat split; try done; try (vm_compute; lia).
  - vm_compute. intros [H _]. by apply H.
  - vm_compute. intros [_ H]. by apply H.
Qed.

(** A newly constructed actor with positive health satisfies the
    invariant. *)
Lemma init_health_inv h s hostile : 0 < h → health_inv (Actor.init h s hostile).
Proof. intros Hh. unfold health_inv. simpl. split; [lia|]. split; [done|lia]. Qed.

Lemma take_damage_health_inv n self :
  0 ≤ n → health_inv self → health_inv (snd (Actor.take_damage n self)).
Proof.
  intros Hn Hinv. unfold Actor.take_damage.
  destruct (is_dead self) eqn:E; [exact Hinv|].
  destruct Hinv as [Hb Hd]. unfold health_inv. simpl.
  destruct (Z.leb_spec (health self - Z.min n (health self)) 0); simpl.
  - split; [lia|done].
  - rewrite E. split; [lia|]. split; [done|lia].
Qed.

Lemma heal_health_inv n self :
  0 ≤ n → health_inv self → health_inv (snd (Actor.heal n self)).
Proof.
  intros Hn Hinv. unfold Actor.heal.
  destruct (is_dead self) eqn:E; [exact Hinv|].
  destruct Hinv as [Hb Hd]. unfold health_inv. simpl. rewrite E.
  assert (health self ≠ 0) by (intros H0; apply Hd in H0; congruence).
  split; [lia|]. split; [done|lia].
Qed.

(** C5, amended: from any state with 0 <= health <= max_health in which the
    actor is dead exactly when its health is 0 (a newly constructed actor
    with positive health is in such a state), every sequence of
    [take_damage] and [heal] calls with non-negative amounts leads to such
    a state again; and whatever the amounts, a dead actor stays dead with
    its health unchanged. *)
Theorem health_bounds_preserved (ops : list HealthOp) (self : ActorFields) :
  health_inv self →
  Forall (λ op, 0 ≤ amount_of op) ops →
  health_inv (run ops self) ∧
  (∀ more, is_dead (run ops self) = true →
           run more (run ops self) = run ops self).
Proof.
  intros Hinv Hops. split; [|intros more Hd; by apply run_dead].
  revert self Hinv. induction Hops as [|op ops Hop _ IH]; intros self Hinv.
  - done.
  - unfold run. simpl. apply IH.
    destruct op as [n|n]; simpl in *.
    + by apply take_damage_health_inv.
    + by apply heal_health_inv.
Qed.

Lemma health_bounds_preserved_witness :
  let self := Actor.init 10 1 false in
  let ops := [TakeDamage 3; Heal 5; TakeDamage 15; Heal 5] in
  health_inv (run ops self) ∧
  (∀ more, is_dead (run ops self) = true →
           run more (run ops self) = run ops self).
Proof.
  apply (health_bounds_preserved
           [TakeDamage 3; Heal 5; TakeDamage 15; Heal 5]
           (Actor.init 10 1 false)).
  - apply init_health_inv. lia.
  - repeat constructor; simpl; lia.
Defined.

(** ** The containment graph *)

Section list_edits.
Implicit Types (x e : oid) (l : list oid).

Lemma list_remove_not_in e l : e ∉ l → list_remove e l = l.
Proof.
  induction l as [|y l IH]; [done|]. intros Hni. simpl.
  apply not_elem_of_cons in Hni as [Hne Hni].
  case_decide; [congruence|]. by rewrite IH.
Qed.

Lemma elem_of_list_remove_ne x e l : x ≠ e → x ∈ list_remove e l ↔ x ∈ l.
Proof.
  intros Hne. induction l as [|y l IH]; [done|]. simpl.
  case_decide as Hy.
  - subst y. rewrite elem_of_cons. split; [by right|]. by intros [?|?].
  - by rewrite !elem_of_cons, IH.
Qed.

Lemma elem_of_list_remove_subset x e l : x ∈ list_remove e l → x ∈ l.
Proof.
  induction l as [|y l IH]; [done|]. simpl.
  case_decide.
  - apply list_elem_of_further.
  - rewrite !elem_of_cons. intros [?|?]; [by left|right; by apply IH].
Qed.

Lemma not_elem_of_list_remove e l : NoDup l → e ∉ list_remove e l.
Proof.
  induction 1 as [|y l Hy Hnd IH]; simpl; [apply not_elem_of_nil|].
  case_decide as E.
  - by subst y.
  - apply not_elem_of_cons. split; [congruence|done].
Qed.

Lemma NoDup_list_remove e l : NoDup l → NoDup (list_remove e l).
Proof.
  induction 1 as [|y l Hy Hnd IH]; simpl; [constructor|].
  case_decide; [done|].
  constructor; [|done]. intros Hin. by apply elem_of_list_remove_subset in Hin.
Qed.

Lemma elem_of_attached x e l : x ∈ attached e l ↔ x ∈ l ∨ x = e.
Proof.
  unfold attached, list_in. case_bool_decide as Hin.
  - split; [by left|]. by intros [?| ->].
  - by rewrite elem_of_app, list_elem_of_singleton.
Qed.

Lemma NoDup_attached e l : NoDup l → NoDup (attached e l).
Proof.
  intros Hnd. unfold attached, list_in. case_bool_decide as Hin; [done|].
  apply NoDup_app. split; [done|]. split; [|apply NoDup_singleton].
  intros x Hx ->%list_elem_of_singleton. done.
Qed.

Lemma occurrences_not_in e l : e ∉ l → occurrences e l = 0%nat.
Proof.
  unfold occurrences. induction l as [|y l IH]; [done|].
  intros [Hne Hni]%not_elem_of_cons.
  rewrite filter_cons_False by congruence. by apply IH.
Qed.

Lemma occurrences_NoDup e l : NoDup l → e ∈ l → occurrences e l = 1%nat.
Proof.
  induction 1 as [|y l Hy Hnd IH]; [by intros ?%elem_of_nil|].
  intros Hin. apply elem_of_cons in Hin as [Heq|Hin].
  - subst y. unfold occurrences. rewrite filter_cons_True by done. simpl.
    f_equal. by apply occurrences_not_in.
  - unfold occurrences in *.
    rewrite filter_cons_False by (intros ->; done). by apply IH.
Qed.

End list_edits.

Lemma contents_detach e o : contents (detach e o) = list_remove e (contents o).
Proof.
  unfold detach, list_in. case_bool_decide; [done|].
  by rewrite list_remove_not_in.
Qed.

Lemma contents_attach e o : contents (attach e o) = attached e (contents o).
Proof.
  unfold attach, attached. by destruct (list_in e (contents o)).
Qed.

Lemma location_detach e o : location (detach e o) = location o.
Proof. unfold detach. by destruct (list_in _ _). Qed.

Lemma location_attach e o : location (attach e o) = location o.
Proof. unfold attach. by destruct (list_in _ _). Qed.

Section alter_fields.
Context (f : GameObject → GameObject).
Implicit Types (w : World) (k x : oid).

Lemma location_of_alter_frame w k x :
  (∀ o, location (f o) = location o) →
  location_of (alter f k w) x = location_of w x.
Proof.
  intros Hf. unfold location_of.
  destruct (decide (k = x)) as [->|].
  - rewrite lookup_alter_eq. destruct (w !! x); simpl; [apply Hf|done].
  - by rewrite lookup_alter_ne.
Qed.

Lemma contents_of_alter_frame w k x :
  (∀ o, contents (f o) = contents o) →
  contents_of (alter f k w) x = contents_of w x.
Proof.
  intros Hf. unfold contents_of.
  destruct (decide (k = x)) as [->|].
  - rewrite lookup_alter_eq. destruct (w !! x); simpl; [apply Hf|done].
  - by rewrite lookup_alter_ne.
Qed.

Lemma contents_of_alter_ne w k x :
  x ≠ k → contents_of (alter f k w) x = contents_of w x.
Proof. intros. unfold contents_of. by rewrite lookup_alter_ne. Qed.

Lemma contents_of_alter_eq w k (g : list oid → list oid) :
  (∀ o, contents (f o) = g (contents o)) →
  is_Some (w !! k) →
  contents_of (alter f k w) k = g (contents_of w k).
Proof.
  intros Hf [o Ho]. unfold contents_of.
  rewrite lookup_alter_eq, Ho. simpl. apply Hf.
Qed.

End alter_fields.

Lemma location_of_with_location (w : World) l k x :
  is_Some (w !! k) →
  location_of (alter (with_location l) k w) x
  = if decide (x = k) then l else location_of w x.
Proof.
  intros [o Ho]. unfold location_of. case_decide as E.
  - subst x. by rewrite lookup_alter_eq, Ho.
  - by rewrite lookup_alter_ne.
Qed.

(** ** [move_to]: what it leaves *)

Lemma move_to_allocated (w : World) e P x :
  is_Some (move_to e P w !! x) ↔ is_Some (w !! x).
Proof.
  unfold move_to.
  destruct P as [p|]; destruct (location_of w e) as [q|];
    rewrite ?lookup_alter_is_Some; done.
Qed.

Lemma location_of_move_to (w : World) e P x :
  is_Some (w !! e) →
  location_of (move_to e P w) x = if decide (x = e) then P else location_of w x.
Proof.
  intros He. unfold move_to.
  assert (∀ w0 : World, is_Some (w0 !! e) →
            location_of (alter (with_location P) e w0) x
            = if decide (x = e) then P else location_of w0 x) as Hset
    by (intros; by apply location_of_with_location).
  destruct P as [p|]; destruct (location_of w e) as [q|] eqn:Hq;
    rewrite ?(location_of_alter_frame (attach e)) by apply location_attach;
    rewrite Hset; rewrite ?lookup_alter_is_Some; try done;
    case_decide; try done;
    by rewrite (location_of_alter_frame (detach e)) by apply location_detach.
Qed.

Lemma contents_of_move_to (w : World) e P y :
  (∀ p, P = Some p → is_Some (w !! p)) →
  contents_of (move_to e P w) y
  = let c := contents_of w y in
    let c1 := if decide (location_of w e = Some y) then list_remove e c else c in
    if decide (P = Some y) then attached e c1 else c1.
Proof.
  intros HP. unfold move_to. simpl.
  set (w1 := match location_of w e with
             | Some old => alter (detach e) old w
             | None => w
             end).
  assert (Hw1 : contents_of w1 y
                = if decide (location_of w e = Some y)
                  then list_remove e (contents_of w y) else contents_of w y).
  { unfold w1. destruct (location_of w e) as [q|] eqn:Hq.
    - case_decide as E.
      + injection E as ->. unfold contents_of. rewrite lookup_alter_eq.
        destruct (w !! y); simpl; [apply contents_detach|done].
      + apply contents_of_alter_ne. congruence.
    - by rewrite decide_False. }
  assert (Hal1 : ∀ x, is_Some (w1 !! x) ↔ is_Some (w !! x)).
  { intros x. unfold w1. destruct (location_of w e); [|done].
    by rewrite lookup_alter_is_Some. }
  set (w2 := alter (with_location P) e w1).
  assert (Hw2 : contents_of w2 y = contents_of w1 y).
  { by apply contents_of_alter_frame. }
  destruct P as [p|].
  - destruct (decide (Some p = Some y)) as [E|E].
    + injection E as ->.
      rewrite (contents_of_alter_eq (attach e) w2 y (attached e)).
      * by rewrite Hw2, Hw1.
      * apply contents_attach.
      * unfold w2. rewrite lookup_alter_is_Some. apply Hal1. by apply HP.
    + rewrite contents_of_alter_ne by congruence. by rewrite Hw2, Hw1.
  - rewrite decide_False by done. by rewrite Hw2, Hw1.
Qed.

(** [move_to] keeps the single-parent invariant. *)
Lemma move_to_forest (w : World) e P :
  forest w →
  is_Some (w !! e) →
  (∀ p, P = Some p → is_Some (w !! p)) →
  forest (move_to e P w).
Proof.
  intros Hf He HP y.
  destruct (Hf y) as [Hnd Hin].
  rewrite contents_of_move_to by done. simpl. split.
  - destruct (decide (P = Some y)), (decide (location_of w e = Some y));
      auto using NoDup_attached, NoDup_list_remove.
  - intros x. unfold parent in *. rewrite location_of_move_to by done.
    destruct (decide (x = e)) as [->|Hne].
    + destruct (decide (P = Some y)) as [HPy|HPy].
      * rewrite elem_of_attached. split; [done|]. intros _. by right.
      * split; [|done]. intros Hx. exfalso.
        destruct (decide (location_of w e = Some y)) as [Hq|Hq].
        -- by apply (not_elem_of_list_remove e (contents_of w y)).
        -- by apply Hq, Hin.
    + assert (x ∈ (if decide (location_of w e = Some y)
                   then list_remove e (contents_of w y)
                   else contents_of w y)
              ↔ location_of w x = Some y) as Hc1.
      { case_decide; [rewrite elem_of_list_remove_ne by done|]; apply Hin. }
      destruct (decide (P = Some y)); [|done].
      rewrite elem_of_attached, Hc1. split; [|by left]. by intros [?|?].
Qed.

(** C6, as stated, fails when the target is the parent the entity already
    has: the coin lies in the box, [move_to(coin, box)] is called, and the
    coin is then (still) listed by its prior parent. *)
Lemma move_to_same_parent_counterexample :
  let w := Scenario.coin_inside in
  let w' := move_to Scenario.coin (Some Scenario.box) w in
  location_of w Scenario.coin = Some Scenario.box ∧
  location_of w' Scenario.coin = Some Scenario.box ∧
  Scenario.coin ∈ contents_of w' Scenario.box.
Proof.
  cbv zeta. split; [by vm_compute|]. split; [by vm_compute|].
  vm_compute. apply list_elem_of_here.
Qed.

(** C6, amended: in a store that satisfies the single-parent invariant,
    after [move_to(e, P)] the location of [e] is [P]; [e] is listed by an
    object exactly when that object is [P] (so by no object when [P] is
    null, and not by its prior parent when that differs from [P]); and
    after a second [move_to(e, P)] the contents of [P] list [e] exactly
    once. *)
Theorem move_to_postcondition (w : World) (e : oid) (P : option oid) :
  forest w →
  is_Some (w !! e) →
  (∀ p, P = Some p → is_Some (w !! p)) →
  let w' := move_to e P w in
  location_of w' e = P ∧
  (∀ y, e ∈ contents_of w' y ↔ P = Some y) ∧
  (∀ q, location_of w e = Some q → P ≠ Some q → e ∉ contents_of w' q) ∧
  (∀ p, P = Some p → occurrences e (contents_of (move_to e P w') p) = 1%nat).
Proof.
  intros Hf He HP w'.
  assert (Hloc : location_of w' e = P).
  { unfold w'. rewrite location_of_move_to by done. by rewrite decide_True. }
  assert (Hf' : forest w') by by apply move_to_forest.
  assert (Hin : ∀ y, e ∈ contents_of w' y ↔ P = Some y).
  { intros y. destruct (Hf' y) as [_ ->]. unfold parent. by rewrite Hloc. }
  split; [done|]. split; [done|]. split.
  - intros q _ Hne. by rewrite Hin.
  - intros p ->.
    assert (He' : is_Some (w' !! e)) by by apply move_to_allocated.
    assert (HP' : ∀ p0, Some p = Some p0 → is_Some (w' !! p0)).
    { intros p0 Hp0. apply move_to_allocated. by apply HP. }
    pose proof (move_to_forest w' e (Some p) Hf' He' HP') as Hf''.
    destruct (Hf'' p) as [Hnd Hin''].
    apply occurrences_NoDup; [done|].
    apply Hin''. unfold parent.
    rewrite location_of_move_to by done. by rewrite decide_True.
Qed.

(** Building stores that satisfy the invariant. *)
Lemma forest_empty : forest ∅.
Proof.
  intros p. unfold contents_of, parent, location_of. rewrite lookup_empty. simpl.
  split; [constructor|]. intros x. rewrite lookup_empty. simpl.
  split; [by intros ?%elem_of_nil|done].
Qed.

Lemma forest_insert_new (w : World) x o :
  forest w → w !! x = None → location o = None → contents o = [] →
  forest (<[x := o]> w).
Proof.
  intros Hf Hx Hl Hc p. destruct (Hf p) as [Hnd Hin].
  assert (Hcp : contents_of (<[x := o]> w) p = contents_of w p).
  { unfold contents_of. destruct (decide (x = p)) as [->|].
    - rewrite lookup_insert_eq, Hx. simpl. by rewrite Hc.
    - by rewrite lookup_insert_ne. }
  rewrite Hcp. split; [done|]. intros y. rewrite Hin.
  unfold parent, location_of. destruct (decide (x = y)) as [->|].
  - rewrite lookup_insert_eq, Hx. simpl. by rewrite Hl.
  - by rewrite lookup_insert_ne.
Qed.

Lemma forest_create (w : World) x o loc :
  forest w → w !! x = None → location o = None → contents o = [] →
  (∀ p, loc = Some p → is_Some (<[x := o]> w !! p)) →
  forest (create x o loc w).
Proof.
  intros Hf Hx Hl Hc Hloc. unfold create.
  pose proof (forest_insert_new w x o Hf Hx Hl Hc) as Hf'.
  destruct loc as [p|]; [|done].
  apply move_to_forest; [done| |done].
  rewrite lookup_insert_eq. by eexists.
Qed.

Lemma forest_after {A} (m : GameObject → A * GameObject) (w : World) x :
  (∀ o, location (snd (m o)) = location o) →
  (∀ o, contents (snd (m o)) = contents o) →
  forest w → forest (after m x w).
Proof.
  intros Hl Hc Hf p. unfold after, parent.
  rewrite contents_of_alter_frame by done.
  destruct (Hf p) as [Hnd Hin]. split; [done|]. intros y.
  by rewrite location_of_alter_frame.
Qed.

Lemma open_frame o :
  location (snd (Container.open o)) = location o ∧
  contents (snd (Container.open o)) = contents o.
Proof. unfold Container.open. by repeat case_match. Qed.

Lemma close_frame o :
  location (snd (Container.close o)) = location o ∧
  contents (snd (Container.close o)) = contents o.
Proof. unfold Container.close. by repeat case_match. Qed.

Lemma scenario_forest : forest Scenario.coin_inside.
Proof.
  unfold Scenario.coin_inside, Scenario.box_opened, Scenario.start.
  apply forest_create; try done.
  - apply forest_after; [apply open_frame|apply open_frame|].
    repeat (apply forest_create; try done); [apply forest_empty| |];
      intros p [= <-]; by eexists.
  - intros p [= <-]. by eexists.
Qed.

Lemma move_to_postcondition_witness :
  let w := Scenario.coin_inside in
  let w' := move_to Scenario.coin (Some Scenario.R) w in
  location_of w' Scenario.coin = Some Scenario.R ∧
  (∀ y, Scenario.coin ∈ contents_of w' y ↔ Some Scenario.R = Some y) ∧
  (∀ q, location_of w Scenario.coin = Some q → Some Scenario.R ≠ Some q →
        Scenario.coin ∉ contents_of w' q) ∧
  (∀ p, Some Scenario.R = Some p →
        occurrences Scenario.coin
          (contents_of (move_to Scenario.coin (Some Scenario.R) w') p) = 1%nat).
Proof.
  apply (move_to_postcondition Scenario.coin_inside Scenario.coin
           (Some Scenario.R)).
  - exact scenario_forest.
  - vm_compute. by eexists.
  - intros p [= <-]. vm_compute. by eexists.
Defined.

(** ** Moving an entity into itself or into a descendant *)

(** A chain of parents that ends at [e] survives the change of [e]'s own
    location. *)
Lemma rtc_parent_move_to (w : World) e P x :
  is_Some (w !! e) →
  rtc (parent w) x e → rtc (parent (move_to e P w)) x e.
Proof.
  intros He. induction 1 as [|x y z Hxy _ IH]; [done|].
  destruct (decide (x = z)) as [->|Hne]; [done|].
  eapply rtc_l; [|exact (IH He)].
  unfold parent in *. rewrite location_of_move_to by done.
  by rewrite decide_False.
Qed.

(** C2, as stated, fails: the box lies in room R and holds the coin;
    [move_to(box, coin)] and [move_to(box, box)] are both carried out.  The
    box leaves the contents of R, its location becomes the target, and the
    target lists it. *)
Lemma move_into_descendant_counterexample :
  let w := Scenario.coin_inside in
  let w1 := move_to Scenario.box (Some Scenario.coin) w in
  let w2 := move_to Scenario.box (Some Scenario.box) w in
  parent w Scenario.coin Scenario.box ∧
  location_of w Scenario.box = Some Scenario.R ∧
  contents_of w Scenario.R = [Scenario.box; Scenario.player] ∧
  w1 ≠ w ∧
  location_of w1 Scenario.box = Some Scenario.coin ∧
  contents_of w1 Scenario.coin = [Scenario.box] ∧
  contents_of w1 Scenario.R = [Scenario.player] ∧
  w2 ≠ w ∧
  location_of w2 Scenario.box = Some Scenario.box ∧
  contents_of w2 Scenario.box = [Scenario.coin; Scenario.box] ∧
  contents_of w2 Scenario.R = [Scenario.player].
Proof.
  cbv zeta. repeat apply conj; by vm_compute.
Qed.

(** C2, amended: when [P] is [e] or a descendant of [e], [move_to(e, P)]
    does not fail and is carried out like any other move: [e] is removed
    from the contents of its prior parent, the location of [e] becomes
    [P], [P] lists [e] (and, in a graph that satisfies the single-parent
    invariant, is then the only object that does), and [e] is then its
    own ancestor; a graph that was acyclic before the call is therefore
    not left as it was. *)
Theorem move_into_descendant (w : World) (e p : oid) :
  is_Some (w !! e) →
  is_Some (w !! p) →
  rtc (parent w) p e →
  let w' := move_to e (Some p) w in
  (∀ q, location_of w e = Some q →
        contents_of w' q
        = if decide (q = p) then attached e (list_remove e (contents_of w q))
          else list_remove e (contents_of w q)) ∧
  location_of w' e = Some p ∧
  e ∈ contents_of w' p ∧
  (forest w → ∀ q, e ∈ contents_of w' q ↔ q = p) ∧
  tc (parent w') e e ∧
  (acyclic w → w' ≠ w).
Proof.
  intros He Hp Hdesc w'.
  assert (HP : ∀ p', Some p = Some p' → is_Some (w !! p'))
    by (by intros ? [= <-]).
  assert (Hloc : location_of w' e = Some p).
  { unfold w'. rewrite location_of_move_to by done. by rewrite decide_True. }
  assert (Hcyc : tc (parent w') e e).
  { eapply tc_rtc_r; [apply tc_once; exact Hloc|].
    by apply rtc_parent_move_to. }
  split; [|split; [done|]; split; [|split; [|split; [done|]]]].
  - intros q Hq. unfold w'. rewrite contents_of_move_to by done.
    simpl. rewrite (decide_True _ _ Hq).
    destruct (decide (q = p)) as [->|Hne]; [by rewrite decide_True|].
    rewrite decide_False; [done|]. by intros [= ->].
  - unfold w'. rewrite contents_of_move_to by done.
    simpl. rewrite decide_True by done. apply elem_of_attached. by right.
  - intros Hf q.
    destruct (move_to_forest w e (Some p) Hf He HP q) as [_ Hq].
    fold w' in Hq. rewrite Hq. unfold parent. rewrite Hloc.
    split; congruence.
  - intros Hac Heq. apply (Hac e). by rewrite <- Heq.
Qed.

Lemma move_into_descendant_witness :
  let w' := move_to Scenario.box (Some Scenario.coin) Scenario.coin_inside in
  contents_of w' Scenario.R = [Scenario.player] ∧
  location_of w' Scenario.box = Some Scenario.coin ∧
  Scenario.box ∈ contents_of w' Scenario.coin ∧
  (∀ q, Scenario.box ∈ contents_of w' q ↔ q = Scenario.coin) ∧
  tc (parent w') Scenario.box Scenario.box ∧
  (acyclic Scenario.coin_inside → w' ≠ Scenario.coin_inside).
Proof.
  destruct (move_into_descendant Scenario.coin_inside Scenario.box
              Scenario.coin) as (Hdet & Hloc & Hin & Hone & Hcyc & Hneq).
  - vm_compute. by eexists.
  - vm_compute. by eexists.
  - apply rtc_once. vm_compute. reflexivity.
  - split; [|split; [exact Hloc|]; split; [exact Hin|];
             split; [exact (Hone scenario_forest)|]; split; [exact Hcyc|];
             exact Hneq].
    eapply eq_trans; [apply (Hdet Scenario.R); vm_compute; reflexivity|].
    vm_compute. reflexivity.
Defined.

(** ** The accessibility resolver *)

(** A result does not depend on the bound: more iterations allowed give the
    same answer. *)
Lemma get_room_from_S fuel (w : World) obj r :
  get_room_from fuel w obj = Some r → get_room_from (S fuel) w obj = Some r.
Proof.
  revert obj. induction fuel as [|fuel IH]; intros [x|]; try done.
  intros H. simpl in H. change (get_room_from (S (S fuel)) w (Some x))
    with (o ← w !! x; if is_room o then Some (Some x)
                      else get_room_from (S fuel) w (location o)).
  destruct (w !! x) as [o|]; [|done]. simpl in *.
  destruct (is_room o); [done|]. by apply IH.
Qed.

Lemma containers_accessible_from_S fuel (w : World) container r :
  containers_accessible_from fuel w container = Some r →
  containers_accessible_from (S fuel) w container = Some r.
Proof.
  revert container. induction fuel as [|fuel IH]; intros [c|]; try done.
  intros H. simpl in H.
  change (containers_accessible_from (S (S fuel)) w (Some c))
    with (o ← w !! c;
          if negb (truthy (Z.land (flags o) ObjectFlag.OPENBIT)
                   || truthy (Z.land (flags o) ObjectFlag.TRANSBIT))
          then Some false
          else containers_accessible_from (S fuel) w (location o)).
  destruct (w !! c) as [o|]; [|done]. simpl in *.
  destruct (negb _); [done|]. by apply IH.
Qed.

Lemma _containers_accessible_S fuel (w : World) self r :
  _containers_accessible fuel w self = Some r →
  _containers_accessible (S fuel) w self = Some r.
Proof.
  unfold _containers_accessible. destruct (w !! self) as [o|]; [|done].
  apply containers_accessible_from_S.
Qed.

Lemma accessible_from_S fuel (w : World) self actor actor_room container r :
  accessible_from fuel w self actor actor_room container = Some r →
  accessible_from (S fuel) w self actor actor_room container = Some r.
Proof.
  revert container. induction fuel as [|fuel IH]; intros [c|]; try done.
  intros H. simpl in H.
  change (accessible_from (S (S fuel)) w self actor actor_room (Some c))
    with (if bool_decide (c = actor) || bool_decide (Some c = actor_room)
          then _containers_accessible (S (S fuel)) w self
          else o ← w !! c;
               accessible_from (S fuel) w self actor actor_room (location o)).
  destruct (bool_decide (c = actor) || bool_decide (Some c = actor_room)).
  - by apply _containers_accessible_S.
  - destruct (w !! c) as [o|]; [|done]. simpl in *. by apply IH.
Qed.

Lemma is_accessible_to_unfold fuel (w : World) self actor o :
  w !! self = Some o →
  is_accessible_to fuel w self actor
  = if is_in o actor then Some true
    else match get_room fuel w actor with
         | Some actor_room =>
             if match actor_room with
                | Some r => is_in o r
                | None => false
                end
             then Some true
             else accessible_from fuel w self actor actor_room (location o)
         | None => None
         end.
Proof.
  intros Ho. unfold is_accessible_to. rewrite Ho.
  generalize (get_room fuel w actor). intros g. simpl.
  destruct (is_in o actor); [done|]. by destruct g.
Qed.

Lemma is_accessible_to_S fuel (w : World) self actor r :
  is_accessible_to fuel w self actor = Some r →
  is_accessible_to (S fuel) w self actor = Some r.
Proof.
  destruct (w !! self) as [o|] eqn:Ho.
  - rewrite !(is_accessible_to_unfold _ _ _ _ _ Ho).
    destruct (is_in o actor); [done|]. unfold get_room.
    destruct (get_room_from fuel w (Some actor)) as [ar|] eqn:Hr; [|done].
    rewrite (get_room_from_S _ _ _ _ Hr).
    destruct (match ar with Some r0 => is_in o r0 | None => false end);
      [done|].
    apply accessible_from_S.
  - unfold is_accessible_to. by rewrite Ho.
Qed.

Lemma is_accessible_to_more fuel more (w : World) self actor r :
  is_accessible_to fuel w self actor = Some r →
  is_accessible_to (more + fuel) w self actor = Some r.
Proof.
  intros H. induction more as [|more IH]; [done|].
  by apply is_accessible_to_S in IH.
Qed.

(** When [_containers_accessible] answers [True], every ancestor up to the
    root of the chain has the open or the transparent bit: the loop does
    not stop at the actor or at the actor's room. *)
Lemma containers_accessible_from_true fuel (w : World) c x :
  containers_accessible_from fuel w (Some c) = Some true →
  rtc (parent w) c x → see_through w x.
Proof.
  revert c. induction fuel as [|fuel IH]; intros c H Hcx; [done|].
  simpl in H. destruct (w !! c) as [o|] eqn:Ho; [|done]. simpl in H.
  destruct (truthy (Z.land (flags o) ObjectFlag.OPENBIT)
            || truthy (Z.land (flags o) ObjectFlag.TRANSBIT)) eqn:Hbits;
    [|done].
  simpl in H. inversion Hcx as [|? y ? Hcy Hyx]; subst.
  - by exists o.
  - unfold parent, location_of in Hcy. rewrite Ho in Hcy. simpl in Hcy.
    rewrite Hcy in H. by apply (IH y).
Qed.

Lemma accessible_from_true fuel (w : World) self actor actor_room container :
  accessible_from fuel w self actor actor_room container = Some true →
  ∃ fuel', _containers_accessible fuel' w self = Some true.
Proof.
  revert container. induction fuel as [|fuel IH]; intros [c|] H; try done.
  simpl in H.
  destruct (bool_decide (c = actor) || bool_decide (Some c = actor_room)).
  - by eexists.
  - destruct (w !! c) as [o|]; [|done]. by apply (IH (location o)).
Qed.

(** An entity that is neither held by the actor nor directly in the actor's
    room is found accessible only if every one of its ancestors, the
    actor's room and whatever lies above it included, has the open or the
    transparent bit. *)
Lemma is_accessible_to_nested fuel (w : World) self actor o :
  w !! self = Some o →
  is_in o actor = false →
  (∀ r, get_room fuel w actor = Some (Some r) → is_in o r = false) →
  is_accessible_to fuel w self actor = Some true →
  ∀ x, tc (parent w) self x → see_through w x.
Proof.
  intros Ho Hheld Hroom H x Hx.
  unfold is_accessible_to in H. rewrite Ho in H. simpl in H.
  rewrite Hheld in H.
  destruct (get_room fuel w actor) as [ar|] eqn:Har; [|done]. simpl in H.
  assert (match ar with Some r => is_in o r | None => false end = false) as E.
  { destruct ar as [r|]; [by apply Hroom|done]. }
  rewrite E in H.
  apply accessible_from_true in H as [fuel' H].
  unfold _containers_accessible in H. rewrite Ho in H. simpl in H.
  assert (∃ y, parent w self y ∧ rtc (parent w) y x) as (y & Hy & Hyx).
  { destruct Hx as [? y Hy|? y ? Hy Hyx];
      exists y; (split; [done|]); [done|by apply tc_rtc]. }
  unfold parent, location_of in Hy. rewrite Ho in Hy. simpl in Hy.
  rewrite Hy in H. by eapply containers_accessible_from_true.
Qed.

(** An entity held by the actor is accessible; no iteration is needed. *)
Lemma held_is_accessible fuel (w : World) self actor :
  location_of w self = Some actor →
  is_accessible_to fuel w self actor = Some true.
Proof.
  unfold location_of. destruct (w !! self) as [o|] eqn:Ho; [|done].
  simpl. intros Hl. rewrite (is_accessible_to_unfold _ _ _ _ _ Ho).
  unfold is_in. by rewrite bool_decide_eq_true_2.
Qed.

(** An entity directly in the actor's room is accessible. *)
Lemma in_room_is_accessible fuel (w : World) self actor r :
  get_room fuel w actor = Some (Some r) →
  location_of w self = Some r →
  is_accessible_to fuel w self actor = Some true.
Proof.
  unfold location_of. intros Hr. destruct (w !! self) as [o|] eqn:Ho; [|done].
  simpl. intros Hl. rewrite (is_accessible_to_unfold _ _ _ _ _ Ho), Hr.
  destruct (is_in o actor); [done|].
  unfold is_in. by rewrite bool_decide_eq_true_2.
Qed.

(** C1: the end-to-end scenario.  With the box closed the coin is not
    accessible, as the claim says.  With the box open again (the coin
    directly inside the open box, the box directly in the actor's room) the
    claim says the coin is accessible, and [is_accessible_to] answers
    [False], whatever the bound on the iterations: the loop of
    [_containers_accessible] runs past the box and tests the room, whose
    flags have neither the open nor the transparent bit. *)
Theorem open_box_coin_not_accessible :
  let closed_w := Scenario.box_closed in
  let w := Scenario.box_reopened in
  location_of w Scenario.coin = Some Scenario.box ∧
  location_of w Scenario.box = Some Scenario.R ∧
  location_of w Scenario.player = Some Scenario.R ∧
  get_room 4 w Scenario.player = Some (Some Scenario.R) ∧
  Container.is_open <$> closed_w !! Scenario.box = Some false ∧
  Container.is_open <$> w !! Scenario.box = Some true ∧
  see_through w Scenario.box ∧
  ¬ see_through w Scenario.R ∧
  (∀ more, is_accessible_to (more + 4) closed_w Scenario.coin Scenario.player
           = Some false) ∧
  (∀ more, is_accessible_to (more + 4) w Scenario.coin Scenario.player
           = Some false).
Proof.
  cbv zeta. repeat apply conj; try by vm_compute.
  - eexists. split; by vm_compute.
  - intros (o & Ho & Hbits). vm_compute in Ho. injection Ho as <-.
    vm_compute in Hbits. discriminate.
  - intros more. apply is_accessible_to_more. by vm_compute.
  - intros more. apply is_accessible_to_more. by vm_compute.
Qed.

(** ** The light resolver *)

Lemma lit_among_true (w : World) objs :
  Room.lit_among w objs = Some true →
  ∃ x o, x ∈ objs ∧ w !! x = Some o ∧
         has_flag ObjectFlag.LIGHTBIT o && has_flag ObjectFlag.ONBIT o = true.
Proof.
  induction objs as [|x objs IH]; [done|]. simpl.
  destruct (w !! x) as [o|] eqn:Ho; [|done]. simpl.
  destruct (has_flag ObjectFlag.LIGHTBIT o && has_flag ObjectFlag.ONBIT o)
    eqn:Hlit.
  - intros _. exists x, o. split; [by left|done].
  - intros (y & oy & Hy & Hoy)%IH. exists y, oy. split; [by right|done].
Qed.

(** [is_lit] answers [True] only for a room with a positive light level or
    with a source switched on among its direct contents. *)
Lemma is_lit_direct (w : World) self :
  Room.is_lit w self = Some true →
  ∃ o r, w !! self = Some o ∧ room_fields o = Some r ∧
    (0 < light_level r ∨
     ∃ x ox, x ∈ contents o ∧ w !! x = Some ox ∧
       has_flag ObjectFlag.LIGHTBIT ox && has_flag ObjectFlag.ONBIT ox = true).
Proof.
  unfold Room.is_lit. destruct (w !! self) as [o|] eqn:Ho; [|done]. simpl.
  destruct (room_fields o) as [r|] eqn:Hr; [|done]. simpl.
  destruct (Z.ltb_spec 0 (light_level r)) as [Hpos|Hle].
  - intros _. exists o, r. split; [done|]. split; [done|]. by left.
  - intros H%lit_among_true. exists o, r.
    split; [done|]. split; [done|]. by right.
Qed.

(** C3: in a cellar with light level 0, a lamp that carries the
    light-emitting and the on-state flag inside an open sack does not
    light the room, nor does a torch carried by an actor who is present;
    the same lamp directly on the floor does.  The claim says lit in all
    three cases. *)
Theorem is_lit_ignores_nested_sources :
  has_flag ObjectFlag.LIGHTBIT <$> Cellar.lamp_in_sack !! Cellar.lamp
    = Some true ∧
  has_flag ObjectFlag.ONBIT <$> Cellar.lamp_in_sack !! Cellar.lamp
    = Some true ∧
  tc (parent Cellar.lamp_in_sack) Cellar.lamp Cellar.cellar ∧
  Room.is_lit Cellar.lamp_in_sack Cellar.cellar = Some false ∧
  has_flag ObjectFlag.LIGHTBIT <$> Cellar.torch_carried !! Cellar.torch
    = Some true ∧
  has_flag ObjectFlag.ONBIT <$> Cellar.torch_carried !! Cellar.torch
    = Some true ∧
  parent Cellar.torch_carried Cellar.torch Cellar.thief ∧
  parent Cellar.torch_carried Cellar.thief Cellar.cellar ∧
  Room.is_lit Cellar.torch_carried Cellar.cellar = Some false ∧
  Room.is_lit Cellar.lamp_on_floor Cellar.cellar = Some true.
Proof.
  repeat apply conj; try by vm_compute.
  eapply tc_l; [|apply tc_once]; by vm_compute.
Qed.

(** ** The description generator *)

(** The test that selects the objects to describe reads bit 0 of the
    flags, which is [INVISIBLE]; [NDESCBIT] is bit 1 and is not read. *)
Lemma describe_filter_is_invisible o :
  has_flag (Z.land (flags o) (Z.shiftl 1 0)) o
  = has_flag ObjectFlag.INVISIBLE o.
Proof.
  unfold has_flag, ObjectFlag.INVISIBLE.
  by rewrite Z.land_assoc, Z.land_diag.
Qed.

(** C8: a hall holds a rug flagged no-description and a ghost flagged
    invisible but not no-description.  [describe] lists the rug, which the
    claim excludes, and omits the ghost, which the claim includes. *)
Theorem describe_lists_ndescbit_object :
  has_flag ObjectFlag.NDESCBIT <$> Hall.world !! Hall.rug = Some true ∧
  has_flag ObjectFlag.NDESCBIT <$> Hall.world !! Hall.ghost = Some false ∧
  contents_of Hall.world Hall.hall = [Hall.rug; Hall.ghost] ∧
  Room.visible_objects Hall.world [Hall.rug; Hall.ghost] = Some [Hall.rug] ∧
  fst <$> Room.describe_parts false Hall.world Hall.hall
    = Some ["Hall"; ""; "A long hall."; ""; "A rug covers the floor."] ∧
  fst <$> Room.describe_parts true Hall.world Hall.hall
    = Some ["Hall"; ""; "A long hall."; ""; "A rug covers the floor."].
Proof. repeat apply conj; by vm_compute. Qed.

(** Objects constructed without first-seen and subsequent texts have the
    empty string for both; [describe] emits these empty texts, the
    templated line being kept for objects without the attributes. *)
Example describe_default_texts :
  fst <$> Room.describe_parts false Scenario.coin_inside Scenario.R
  = Some ["R"; ""; "A bare room."; ""; ""; ""].
Proof. by vm_compute. Qed.

(** *** What [describe] changes *)

Lemma seen_marked_refl listed (w : World) : seen_marked listed w w.
Proof. intros x. by left. Qed.

Lemma seen_marked_allocated listed (w w' : World) x :
  seen_marked listed w w' → is_Some (w !! x) → is_Some (w' !! x).
Proof.
  intros Hm Hx. destruct (Hm x) as [->|(_ & o & _ & ->)]; [done|by eexists].
Qed.

(** An object of the store after the call is the object before the call,
    up to its [seen] mark. *)
Lemma seen_marked_lookup listed (w w' : World) x o :
  seen_marked listed w w' → w !! x = Some o →
  ∃ o', w' !! x = Some o' ∧ (o' = o ∨ o' = with_seen true o).
Proof.
  intros Hm Ho. destruct (Hm x) as [E|(_ & o0 & Ho0 & E)].
  - exists o. split; [congruence|by left].
  - exists (with_seen true o). split; [congruence|by right].
Qed.

Lemma seen_marked_step (w w' : World) x o rest :
  w !! x = Some o →
  seen_marked rest (<[x := with_seen true o]> w) w' →
  seen_marked (x :: rest) w w'.
Proof.
  intros Ho Hm y. destruct (decide (y = x)) as [->|Hne].
  - right. split; [by left|]. exists o. split; [done|].
    destruct (Hm x) as [E|(_ & o0 & Ho0 & E)].
    + by rewrite E, lookup_insert_eq.
    + rewrite lookup_insert_eq in Ho0. injection Ho0 as <-. by rewrite E.
  - destruct (Hm y) as [E|(Hin & o0 & Ho0 & E)].
    + left. by rewrite E, lookup_insert_ne.
    + right. rewrite lookup_insert_ne in Ho0 by done.
      split; [by right|]. by exists o0.
Qed.

Lemma seen_marked_weaken (w w' : World) x rest :
  seen_marked rest w w' → seen_marked (x :: rest) w w'.
Proof.
  intros Hm y. destruct (Hm y) as [E|(Hin & H)]; [by left|].
  right. split; [by right|done].
Qed.

(** The loop of [describe] returns on every list of allocated objects, and
    changes nothing but [seen] marks of the objects of the list. *)
Lemma describe_objects_total (w : World) objs :
  (∀ x, x ∈ objs → is_Some (w !! x)) →
  ∃ lines w', Room.describe_objects w objs = Some (lines, w') ∧
              seen_marked objs w w'.
Proof.
  revert w. induction objs as [|x rest IH]; intros w Hall.
  - exists [], w. split; [done|apply seen_marked_refl].
  - destruct (Hall x) as [o Ho]; [by left|].
    simpl. rewrite Ho. simpl.
    set (later := match get_ldesc o with
                  | Some l => l
                  | None => "There is " +:+ short_desc o +:+ " here."
                  end).
    assert (Hrest : ∀ w1 : World,
               (∀ y, is_Some (w !! y) → is_Some (w1 !! y)) →
               ∀ y, y ∈ rest → is_Some (w1 !! y)).
    { intros w1 Hw1 y Hy. apply Hw1, Hall. by right. }
    destruct (get_fdesc o) as [f|]; [destruct (seen o)|]; simpl.
    + destruct (IH w) as (lines & w' & -> & Hm); [by apply Hrest|].
      exists (later :: lines), w'. split; [done|by apply seen_marked_weaken].
    + destruct (IH (<[x := with_seen true o]> w)) as (lines & w' & -> & Hm).
      { apply Hrest. intros y Hy.
        destruct (decide (x = y)) as [->|];
          [rewrite lookup_insert_eq; by eexists|by rewrite lookup_insert_ne]. }
      exists (f :: lines), w'. split; [done|by eapply seen_marked_step].
    + destruct (IH w) as (lines & w' & -> & Hm); [by apply Hrest|].
      exists (later :: lines), w'. split; [done|by apply seen_marked_weaken].
Qed.

Lemma visible_objects_total (w : World) objs :
  (∀ x, x ∈ objs → is_Some (w !! x)) →
  ∃ vis, Room.visible_objects w objs = Some vis ∧ vis ⊆ objs.
Proof.
  induction objs as [|x rest IH]; intros Hall.
  - by exists [].
  - destruct (Hall x) as [o Ho]; [by left|].
    destruct IH as (vis & Hvis & Hsub); [intros y Hy; apply Hall; by right|].
    simpl. rewrite Ho, Hvis. simpl.
    destruct (negb _); eexists; (split; [done|]).
    + intros y [->|Hy]%elem_of_cons; [by left|right; by apply Hsub].
    + intros y Hy. right. by apply Hsub.
Qed.

(** The selection reads only [flags], which [seen] marks leave alone. *)
Lemma visible_objects_seen_marked listed (w w' : World) objs vis :
  seen_marked listed w w' →
  Room.visible_objects w objs = Some vis →
  Room.visible_objects w' objs = Some vis.
Proof.
  intros Hm. revert vis. induction objs as [|x rest IH]; intros vis; [done|].
  simpl. destruct (w !! x) as [o|] eqn:Ho; [|done]. simpl.
  destruct (Room.visible_objects w rest) as [vis0|]; [|done]. simpl.
  rewrite (IH vis0) by done.
  destruct (seen_marked_lookup _ _ _ _ _ Hm Ho) as (o' & -> & [->| ->]);
    simpl; done.
Qed.

(** One call of [describe] on a room whose contents are allocated: it
    returns, its text starts with the name, an empty line and, when
    verbose or not visited, the long description, and the store differs
    at most in [seen] marks of the objects it lists. *)
Lemma describe_frame verbose (w : World) self o r :
  w !! self = Some o →
  room_fields o = Some r →
  (∀ x, x ∈ contents o → is_Some (w !! x)) →
  ∃ vis rest w1,
    Room.visible_objects w (contents o) = Some vis ∧
    Room.describe verbose w self
    = Some (Room.join_lines
              ((if verbose || negb (visited r)
                then [short_desc o; ""; long_desc o]
                else [short_desc o; ""]) ++ rest), w1) ∧
    seen_marked vis w w1.
Proof.
  intros Ho Hr Hall.
  destruct (visible_objects_total w (contents o) Hall) as (vis & Hvis & Hsub).
  unfold Room.describe, Room.describe_parts.
  rewrite Ho. simpl. rewrite Hr. simpl. rewrite Hvis. simpl.
  destruct vis as [|v vis'].
  - exists [], [], w. rewrite app_nil_r.
    split; [done|]. split; [|apply seen_marked_refl].
    by destruct (verbose || negb (visited r)).
  - destruct (describe_objects_total w (v :: vis')) as (lines & w1 & Hd & Hm).
    { intros x Hx. by apply Hall, Hsub. }
    rewrite Hd. simpl. exists (v :: vis'), ("" :: lines), w1.
    split; [done|]. split; [|done].
    by destruct (verbose || negb (visited r)).
Qed.

(** [seen] marks leave the room as [describe] reads it. *)
Lemma seen_marked_room listed (w w1 : World) self o r :
  seen_marked listed w w1 →
  w !! self = Some o → room_fields o = Some r →
  ∃ o1, w1 !! self = Some o1 ∧ room_fields o1 = Some r ∧
        contents o1 = contents o ∧ short_desc o1 = short_desc o ∧
        long_desc o1 = long_desc o.
Proof.
  intros Hm Ho Hr.
  destruct (seen_marked_lookup _ _ _ _ _ Hm Ho) as (o1 & Ho1 & [->| ->]);
    [by exists o|by exists (with_seen true o)].
Qed.

(** [on_enter], when no room action handles the event, is what marks the
    room visited. *)
Lemma on_enter_sets_visited (w : World) self actor o r :
  w !! self = Some o → room_fields o = Some r → room_action r = None →
  ∃ w', Room.on_enter w self actor = Some (NOT_HANDLED, w') ∧
        visited <$> (w' !! self ≫= room_fields) = Some true.
Proof.
  intros Ho Hr Ha. unfold Room.on_enter. rewrite Ho. simpl. rewrite Hr. simpl.
  rewrite Ha. eexists. split; [done|]. by rewrite lookup_insert_eq.
Qed.

(** C10: [describe] returns, changes nothing but [seen] marks of the
    objects it lists, and leaves the fields of the room, [visited]
    included, as they were; so on a room that is not visited, two
    consecutive calls of [describe(verbose=False)] both give a text whose
    third line is the long description. *)
Theorem describe_leaves_visited (w : World) (self : oid) (o : GameObject)
    (r : RoomFields) :
  w !! self = Some o →
  room_fields o = Some r →
  (∀ x, x ∈ contents o → is_Some (w !! x)) →
  (∀ verbose, ∃ vis text w1,
     Room.visible_objects w (contents o) = Some vis ∧
     Room.describe verbose w self = Some (text, w1) ∧
     seen_marked vis w w1 ∧
     w1 !! self ≫= room_fields = Some r) ∧
  (visited r = false →
   ∃ rest1 w1 rest2 w2,
     Room.describe false w self
     = Some (Room.join_lines ([short_desc o; ""; long_desc o] ++ rest1), w1) ∧
     Room.describe false w1 self
     = Some (Room.join_lines ([short_desc o; ""; long_desc o] ++ rest2), w2) ∧
     w1 !! self ≫= room_fields = Some r ∧
     w2 !! self ≫= room_fields = Some r).
Proof.
  intros Ho Hr Hall. split.
  - intros verbose.
    destruct (describe_frame verbose w self o r Ho Hr Hall)
      as (vis & rest & w1 & Hvis & Hd & Hm).
    destruct (seen_marked_room _ _ _ _ _ _ Hm Ho Hr) as (o1 & Ho1 & Hr1 & _).
    eexists vis, _, w1. split; [done|]. split; [exact Hd|].
    split; [done|]. by rewrite Ho1.
  - intros Hv.
    destruct (describe_frame false w self o r Ho Hr Hall)
      as (vis & rest1 & w1 & Hvis & Hd1 & Hm1).
    destruct (seen_marked_room _ _ _ _ _ _ Hm1 Ho Hr)
      as (o1 & Ho1 & Hr1 & Hc1 & Hs1 & Hl1).
    assert (Hall1 : ∀ x, x ∈ contents o1 → is_Some (w1 !! x)).
    { intros x Hx. eapply seen_marked_allocated; [done|].
      apply Hall. by rewrite <- Hc1. }
    destruct (describe_frame false w1 self o1 r Ho1 Hr1 Hall1)
      as (vis2 & rest2 & w2 & Hvis2 & Hd2 & Hm2).
    destruct (seen_marked_room _ _ _ _ _ _ Hm2 Ho1 Hr1) as (o2 & Ho2 & Hr2 & _).
    rewrite Hv in Hd1, Hd2. simpl in Hd1, Hd2. rewrite Hs1, Hl1 in Hd2.
    exists rest1, w1, rest2, w2.
    split; [done|]. split; [done|].
    split; [by rewrite Ho1|by rewrite Ho2].
Qed.

Lemma describe_leaves_visited_witness :
  ∃ rest1 w1 rest2 w2,
    Room.describe false Scenario.coin_inside Scenario.R
    = Some (Room.join_lines (["R"; ""; "A bare room."] ++ rest1), w1) ∧
    Room.describe false w1 Scenario.R
    = Some (Room.join_lines (["R"; ""; "A bare room."] ++ rest2), w2) ∧
    w1 !! Scenario.R ≫= room_fields = Some (mkRoom false 1 None) ∧
    w2 !! Scenario.R ≫= room_fields = Some (mkRoom false 1 None).
Proof.
  assert (Ho : Scenario.coin_inside !! Scenario.R
               = Some (with_contents [Scenario.box; Scenario.player]
                         (new_room "R" "R" "A bare room." 0)))
    by (vm_compute; reflexivity).
  refine (proj2 (describe_leaves_visited Scenario.coin_inside Scenario.R _
                   (mkRoom false 1 None) Ho _ _) _).
  - reflexivity.
  - intros x Hx.
    apply elem_of_cons in Hx as [->|Hx]; [vm_compute; by eexists|].
    apply list_elem_of_singleton in Hx as ->. vm_compute; by eexists.
  - reflexivity.
Defined.

(** * Further properties *)

(** ** Flags *)

Section flag_masks.
Implicit Types (flag f : Z) (o : GameObject).

Lemma bits_above_declared f k :
  0 ≤ f ≤ ObjectFlag.all_bits → 36 ≤ k → Z.testbit f k = false.
Proof.
  unfold ObjectFlag.all_bits. intros Hf Hk.
  rewrite <- (Z.mod_small f (2 ^ 36)) by lia.
  apply Z.mod_pow2_bits_high. lia.
Qed.

Lemma land_invert_same flag : Z.land (ObjectFlag.invert flag) flag = 0.
Proof.
  unfold ObjectFlag.invert. apply Z.bits_inj'. intros i Hi.
  rewrite Z.land_spec, Z.bits_0.
  destruct (Z.lt_ge_cases (Z.lnot flag) 0) as [Hneg|Hpos].
  - destruct (make_neg _ Hneg) as (k & Hk & ->).
    destruct (Z.lt_ge_cases i k).
    + rewrite Z.mod_pow2_bits_low, Z.lnot_spec by lia.
      by destruct (Z.testbit flag i).
    + by rewrite Z.mod_pow2_bits_high by lia.
  - rewrite make_nonneg, Z.lnot_spec by done.
    by destruct (Z.testbit flag i).
Qed.

Lemma invert_ge_0 flag : 0 ≤ ObjectFlag.invert flag.
Proof. apply make_ge_0. Qed.

Lemma with_flags_same o : with_flags (flags o) o = o.
Proof. by destruct o. Qed.

(** X1: whatever the mask, [has_flag] is false after [clear_flag] of the
    same mask; for a mask made of declared flags it is true after
    [set_flag] of the same mask unless the mask is 0. *)
Theorem has_flag_after_set_clear (flag : Z) (o : GameObject) :
  has_flag flag (clear_flag flag o) = false ∧
  (0 ≤ flag ≤ ObjectFlag.all_bits →
   has_flag flag (set_flag flag o) = negb (flag =? 0)).
Proof.
  unfold has_flag, set_flag, clear_flag, truthy. simpl. split.
  - pose proof (invert_ge_0 flag).
    rewrite make_nonneg by (apply Z.land_nonneg; by right).
    by rewrite <- Z.land_assoc, land_invert_same, Z.land_0_r.
  - intros Hflag. f_equal. f_equal.
    apply Z.bits_inj'. intros k Hk. rewrite Z.land_spec.
    destruct (Z.testbit flag k) eqn:Hb; [|by rewrite andb_false_r].
    destruct (Z.lt_ge_cases k 36) as [Hlt|Hge].
    + rewrite make_testbit, Z.lor_spec, Hb by lia.
      by rewrite orb_true_r.
    + by rewrite bits_above_declared in Hb by (done || lia).
Qed.

Lemma has_flag_after_set_clear_witness :
  has_flag ObjectFlag.ONBIT (clear_flag ObjectFlag.ONBIT brass_lamp) = false ∧
  has_flag ObjectFlag.ONBIT (set_flag ObjectFlag.ONBIT brass_lamp) = true.
Proof.
  destruct (has_flag_after_set_clear ObjectFlag.ONBIT brass_lamp) as [H1 H2].
  split; [exact H1|]. apply H2. by vm_compute.
Defined.

(** A mask above the declared flags is lost when negative [flags] are
    brought back among the declared bits. *)
Example set_flag_above_declared_bits :
  let o := with_flags (-1) brass_lamp in
  flags (set_flag (2 ^ 40) o) = ObjectFlag.all_bits ∧
  has_flag (2 ^ 40) (set_flag (2 ^ 40) o) = false.
Proof. by vm_compute. Qed.

(** X2: on flags that are not negative, [toggle_flag] twice with the same
    mask gives the object back; toggling a declared bit inverts what
    [has_flag] answers for that bit, whatever the flags. *)
Theorem toggle_flag_involutive (flag : Z) (o : GameObject) :
  (0 ≤ flags o → 0 ≤ flag → toggle_flag flag (toggle_flag flag o) = o) ∧
  ∀ n, 0 ≤ n < 36 →
    has_flag (Z.shiftl 1 n) (toggle_flag (Z.shiftl 1 n) o)
    = negb (has_flag (Z.shiftl 1 n) o).
Proof.
  split.
  - intros Hf Hflag. unfold toggle_flag, with_flags.
    destruct o as [? ? ? ? ? f0 ? ? ? ?]. simpl in *.
    assert (0 ≤ Z.lxor f0 flag) by (apply Z.lxor_nonneg; tauto).
    rewrite (make_nonneg (Z.lxor f0 flag)) by done.
    rewrite Z.lxor_assoc, Z.lxor_nilpotent, Z.lxor_0_r.
    by rewrite make_nonneg.
  - intros n Hn. rewrite !has_flag_bit by lia. simpl.
    rewrite make_testbit by done.
    rewrite Z.lxor_spec, Z.shiftl_1_l, Z.pow2_bits_eqb, Z.eqb_refl by lia.
    by destruct (Z.testbit (flags o) n).
Qed.

Lemma toggle_flag_involutive_witness :
  toggle_flag ObjectFlag.ONBIT (toggle_flag ObjectFlag.ONBIT brass_lamp)
  = brass_lamp ∧
  has_flag ObjectFlag.ONBIT (toggle_flag ObjectFlag.ONBIT brass_lamp)
  = negb (has_flag ObjectFlag.ONBIT brass_lamp).
Proof.
  destruct (toggle_flag_involutive ObjectFlag.ONBIT brass_lamp) as [H1 H2].
  split; [apply H1; by vm_compute|]. apply (H2 13). lia.
Defined.

(** Negative flags do not come back: [-1] toggled twice is [2^36 - 1]. *)
Example toggle_flag_negative_flags :
  flags (toggle_flag ObjectFlag.ONBIT
           (toggle_flag ObjectFlag.ONBIT (with_flags (-1) brass_lamp)))
  = ObjectFlag.all_bits.
Proof. by vm_compute. Qed.

(** X3: setting, clearing or toggling one bit leaves the answer of
    [has_flag] for every other declared bit as it was. *)
Theorem other_bits_untouched (n m : Z) (o : GameObject) :
  0 ≤ n < 36 → 0 ≤ m → n ≠ m →
  has_flag (Z.shiftl 1 n) (set_flag (Z.shiftl 1 m) o)
    = has_flag (Z.shiftl 1 n) o ∧
  has_flag (Z.shiftl 1 n) (clear_flag (Z.shiftl 1 m) o)
    = has_flag (Z.shiftl 1 n) o ∧
  has_flag (Z.shiftl 1 n) (toggle_flag (Z.shiftl 1 m) o)
    = has_flag (Z.shiftl 1 n) o.
Proof.
  intros Hn Hm Hne.
  assert ((m =? n) = false) as E by by apply Z.eqb_neq.
  rewrite has_flag_set_flag, has_flag_clear_flag by done. rewrite E.
  rewrite orb_false_r, andb_true_r. split; [done|]. split; [done|].
  rewrite !has_flag_bit by lia. simpl.
  rewrite make_testbit by done.
  rewrite Z.lxor_spec, Z.shiftl_1_l, Z.pow2_bits_eqb, E by done.
  by destruct (Z.testbit (flags o) n).
Qed.

Lemma other_bits_untouched_witness :
  has_flag ObjectFlag.LIGHTBIT (set_flag ObjectFlag.ONBIT brass_lamp) = true ∧
  has_flag ObjectFlag.LIGHTBIT (clear_flag ObjectFlag.ONBIT brass_lamp) = true ∧
  has_flag ObjectFlag.LIGHTBIT (toggle_flag ObjectFlag.ONBIT brass_lamp) = true.
Proof.
  pose proof (other_bits_untouched 12 13 brass_lamp) as H.
  destruct H as (H1 & H2 & H3); [lia|lia|lia|].
  split; [exact H1|]. split; [exact H2|exact H3].
Defined.

(** A bit above the declared ones does not survive [clear_flag] of another
    bit. *)
Example clear_flag_above_declared_bits :
  let o := with_flags (2 ^ 40) brass_lamp in
  has_flag (2 ^ 40) o = true ∧
  has_flag (2 ^ 40) (clear_flag ObjectFlag.ONBIT o) = false.
Proof. by vm_compute. Qed.

End flag_masks.

(** ** The container state machine: round trips, invariant, surfaces *)

Lemma testbit_invert_bit n k :
  0 ≤ n < 36 → 0 ≤ k →
  Z.testbit (ObjectFlag.invert (Z.shiftl 1 n)) k = (k <? 36) && negb (n =? k).
Proof.
  intros Hn Hk. unfold ObjectFlag.invert.
  destruct (Z.ltb_spec k 36) as [Hlt|Hge].
  - rewrite make_testbit by lia.
    by rewrite Z.lnot_spec, Z.shiftl_1_l, Z.pow2_bits_eqb by lia.
  - assert (Z.lnot (Z.shiftl 1 n) < 0) as Hneg.
    { rewrite Z.shiftl_1_l. unfold Z.lnot.
      assert (0 < 2 ^ n) by (apply Z.pow_pos_nonneg; lia). lia. }
    assert (- 2 ^ 36 ≤ Z.lnot (Z.shiftl 1 n)) as Hlow.
    { rewrite Z.shiftl_1_l. unfold Z.lnot.
      assert (2 ^ n < 2 ^ 36) by (apply Z.pow_lt_mono_r; lia). lia. }
    unfold ObjectFlag.make, ObjectFlag.all_bits. cbv zeta.
    change (Z.lnot (2 ^ 36 - 1)) with (- 2 ^ 36).
    assert ((- 2 ^ 36 <=? Z.lnot (Z.shiftl 1 n)) = true) as E1
      by (apply Z.leb_le; lia).
    assert ((Z.lnot (Z.shiftl 1 n) <=? 2 ^ 36 - 1) = true) as E2
      by (apply Z.leb_le; lia).
    assert ((Z.lnot (Z.shiftl 1 n) <? 0) = true) as E3
      by (apply Z.ltb_lt; lia).
    rewrite E1, E2. cbn [andb negb]. rewrite E3.
    replace (2 ^ 36 - 1 + 1 + Z.lnot (Z.shiftl 1 n))
      with (Z.lnot (Z.shiftl 1 n) mod 2 ^ 36)
      by (symmetry; apply Z.mod_unique with (q := -1); lia).
    apply Z.mod_pow2_bits_high. lia.
Qed.

Lemma clear_set_bit o n :
  0 ≤ n < 36 → 0 ≤ flags o ≤ ObjectFlag.all_bits →
  has_flag (Z.shiftl 1 n) o = false →
  clear_flag (Z.shiftl 1 n) (set_flag (Z.shiftl 1 n) o) = o.
Proof.
  intros Hn Hf Hb. rewrite has_flag_bit in Hb by lia.
  rewrite <- (with_flags_same o) at 2.
  unfold clear_flag, set_flag, with_flags. simpl. f_equal.
  assert (0 ≤ Z.lor (flags o) (Z.shiftl 1 n)).
  { apply Z.lor_nonneg. split; [lia|]. rewrite Z.shiftl_1_l.
    apply Z.pow_nonneg. lia. }
  rewrite (make_nonneg (Z.lor _ _)) by done.
  rewrite make_nonneg by (apply Z.land_nonneg; by left).
  apply Z.bits_inj'. intros k Hk.
  rewrite Z.land_spec, Z.lor_spec, testbit_invert_bit, Z.shiftl_1_l,
    Z.pow2_bits_eqb by lia.
  destruct (Z.ltb_spec k 36) as [Hlt|Hge].
  - destruct (Z.eqb_spec n k) as [->|]; [rewrite Hb|];
      by destruct (Z.testbit (flags o) k).
  - rewrite bits_above_declared by done. by rewrite andb_false_r.
Qed.

Lemma set_clear_bit o n :
  0 ≤ n < 36 → 0 ≤ flags o ≤ ObjectFlag.all_bits →
  has_flag (Z.shiftl 1 n) o = true →
  set_flag (Z.shiftl 1 n) (clear_flag (Z.shiftl 1 n) o) = o.
Proof.
  intros Hn Hf Hb. rewrite has_flag_bit in Hb by lia.
  rewrite <- (with_flags_same o) at 2.
  unfold clear_flag, set_flag, with_flags. simpl. f_equal.
  assert (0 ≤ Z.land (flags o) (ObjectFlag.invert (Z.shiftl 1 n)))
    by (apply Z.land_nonneg; left; lia).
  rewrite (make_nonneg (Z.land _ _)) by done.
  rewrite make_nonneg.
  2:{ apply Z.lor_nonneg. split; [done|]. rewrite Z.shiftl_1_l.
      apply Z.pow_nonneg. lia. }
  apply Z.bits_inj'. intros k Hk.
  rewrite Z.lor_spec, Z.land_spec, testbit_invert_bit, Z.shiftl_1_l,
    Z.pow2_bits_eqb by lia.
  destruct (Z.ltb_spec k 36) as [Hlt|Hge].
  - destruct (Z.eqb_spec n k) as [->|]; [rewrite Hb|];
      by destruct (Z.testbit (flags o) k).
  - rewrite bits_above_declared by done.
    destruct (Z.eqb_spec n k); [lia|done].
Qed.


Lemma open_succeeds_when self :
  fst (fst (Container.open self)) = true →
  Container.surface self = false ∧
  has_flag ObjectFlag.OPENABLE self = true ∧
  has_flag ObjectFlag.LOCKEDBIT self = false ∧
  has_flag ObjectFlag.OPENBIT self = false ∧
  Container.open self = ((true, "Opened."), set_flag ObjectFlag.OPENBIT self).
Proof.
  unfold Container.open, Container.is_openable, Container.is_open,
    Container.is_locked.
  destruct (Container.surface self); [done|].
  destruct (has_flag ObjectFlag.OPENABLE self); [|done].
  destruct (has_flag ObjectFlag.LOCKEDBIT self); [done|].
  by destruct (has_flag ObjectFlag.OPENBIT self).
Qed.

Lemma lock_succeeds_when self :
  fst (fst (Container.lock self)) = true →
  Container.surface self = false ∧
  has_flag ObjectFlag.LOCKEDBIT self = false ∧
  has_flag ObjectFlag.OPENBIT self = false ∧
  Container.lock self = ((true, "Locked."), set_flag ObjectFlag.LOCKEDBIT self).
Proof.
  unfold Container.lock, Container.is_open, Container.is_locked.
  destruct (Container.surface self); [done|].
  destruct (has_flag ObjectFlag.OPENBIT self); [done|].
  by destruct (has_flag ObjectFlag.LOCKEDBIT self).
Qed.

Lemma open_then_close (self : GameObject) :
  0 ≤ flags self ≤ ObjectFlag.all_bits →
  fst (fst (Container.open self)) = true →
  Container.close (snd (Container.open self)) = ((true, "Closed."), self).
Proof.
  intros Hf (Hs & Hop & Hl & Ho & ->)%open_succeeds_when. cbn [snd].
  unfold Container.close, Container.is_openable, Container.is_open.
  rewrite surface_set_flag, Hs.
  unfold ObjectFlag.OPENABLE, ObjectFlag.OPENBIT in *.
  rewrite !has_flag_set_flag by lia. rewrite Hop, Ho.
  change (5 =? 5) with true. cbn [negb orb].
  by rewrite clear_set_bit by (lia || done).
Qed.

Lemma lock_then_unlock (self : GameObject) :
  0 ≤ flags self ≤ ObjectFlag.all_bits →
  fst (fst (Container.lock self)) = true →
  Container.unlock (snd (Container.lock self)) = ((true, "Unlocked."), self).
Proof.
  intros Hf (Hs & Hl & Ho & ->)%lock_succeeds_when. cbn [snd].
  unfold Container.unlock, Container.is_locked.
  rewrite surface_set_flag, Hs.
  unfold ObjectFlag.LOCKEDBIT in *.
  rewrite !has_flag_set_flag by lia. rewrite Hl.
  change (34 =? 34) with true. cbn [negb orb].
  by rewrite clear_set_bit by (lia || done).
Qed.

(** X4: on a container whose flags lie within the declared bits, a
    successful [open()] is undone by [close()], and a successful [lock()]
    by [unlock()]: the second call succeeds and gives back the very
    container the first was called on. *)
Theorem transitions_round_trip (self : GameObject) :
  0 ≤ flags self ≤ ObjectFlag.all_bits →
  (fst (fst (Container.open self)) = true →
   Container.close (snd (Container.open self)) = ((true, "Closed."), self)) ∧
  (fst (fst (Container.lock self)) = true →
   Container.unlock (snd (Container.lock self))
   = ((true, "Unlocked."), self)).
Proof.
  intros Hf. split; [by apply open_then_close|by apply lock_then_unlock].
Qed.

(** The plain box, closed and unlocked, can be opened and can be locked. *)
Example plain_box_round_trip :
  fst (fst (Container.open plain_box)) = true ∧
  fst (fst (Container.lock plain_box)) = true.
Proof. by vm_compute. Qed.

Lemma transitions_round_trip_witness :
  Container.close (snd (Container.open plain_box))
  = ((true, "Closed."), plain_box) ∧
  Container.unlock (snd (Container.lock plain_box))
  = ((true, "Unlocked."), plain_box).
Proof.
  destruct (transitions_round_trip plain_box) as [H1 H2]; [by vm_compute|].
  split; [apply H1|apply H2]; reflexivity.
Defined.

(** Outside the declared bits the round trip loses information: [close()]
    clears bit 40 along with [OPENBIT]. *)
Example round_trip_above_declared_bits :
  let box := new_container "BOX" "box" "" "" ""
               (Z.lor ObjectFlag.OPENABLE (2 ^ 40)) 5 10 false in
  fst (fst (Container.open box)) = true ∧
  flags (snd (Container.close (snd (Container.open box))))
  = Z.lor ObjectFlag.OPENABLE ObjectFlag.CONTBIT.
Proof. by vm_compute. Qed.

Lemma is_open_set_clear b self :
  Container.is_open (set_flag (Z.shiftl 1 b) self)
  = (if Container.surface self then true
     else has_flag ObjectFlag.OPENBIT (set_flag (Z.shiftl 1 b) self)) ∧
  Container.is_open (clear_flag (Z.shiftl 1 b) self)
  = (if Container.surface self then true
     else has_flag ObjectFlag.OPENBIT (clear_flag (Z.shiftl 1 b) self)).
Proof. done. Qed.

(** X5: no transition makes a container both open and locked: [open()]
    refuses a locked container and [lock()] an open one, so a container
    that is not open and locked at once stays so under [open()],
    [close()], [lock()] and [unlock()]. *)
Theorem never_open_and_locked (self : GameObject) :
  not_open_and_locked self →
  not_open_and_locked (snd (Container.open self)) ∧
  not_open_and_locked (snd (Container.close self)) ∧
  not_open_and_locked (snd (Container.lock self)) ∧
  not_open_and_locked (snd (Container.unlock self)).
Proof.
  unfold not_open_and_locked.
  intros Hinv.
  assert (∀ s', Container.surface s' = Container.surface self →
            (has_flag ObjectFlag.OPENBIT s'
             && has_flag ObjectFlag.LOCKEDBIT s' = false) →
            Container.surface self = false →
            Container.is_open s' && Container.is_locked s' = false) as Hgen.
  { intros s' Hs' Hb Hs. unfold Container.is_open, Container.is_locked.
    by rewrite Hs', Hs. }
  unfold Container.open, Container.close, Container.lock, Container.unlock,
    Container.is_openable.
  destruct (Container.surface self) eqn:Hs; [done|].
  assert (has_flag ObjectFlag.OPENBIT self
          && has_flag ObjectFlag.LOCKEDBIT self = false) as Hinv'.
  { revert Hinv. unfold Container.is_open, Container.is_locked.
    by rewrite Hs. }
  unfold Container.is_open, Container.is_locked in *. rewrite Hs in *.
  destruct (has_flag ObjectFlag.OPENABLE self) eqn:Hop;
    destruct (has_flag ObjectFlag.LOCKEDBIT self) eqn:Hl;
    destruct (has_flag ObjectFlag.OPENBIT self) eqn:Ho;
    cbn [negb snd andb] in *; try done;
    rewrite ?surface_set_flag, ?surface_clear_flag, ?Hs, ?Hl, ?Ho;
    try done;
    unfold ObjectFlag.OPENBIT, ObjectFlag.LOCKEDBIT in *;
    rewrite ?has_flag_set_flag, ?has_flag_clear_flag by lia;
    rewrite ?Hl, ?Ho; done.
Qed.

Lemma never_open_and_locked_witness :
  not_open_and_locked (snd (Container.open chest)) ∧
  not_open_and_locked (snd (Container.close chest)) ∧
  not_open_and_locked (snd (Container.lock chest)) ∧
  not_open_and_locked (snd (Container.unlock chest)).
Proof. apply (never_open_and_locked chest). reflexivity. Defined.

(** X6: a surface is always open, is not openable, and refuses [open()],
    [close()], [lock()] and [unlock()], each with its own message and
    without any change. *)
Theorem surface_refuses_transitions (self : GameObject) t i c :
  class self = IsContainer t i c → is_surface c = true →
  Container.is_open self = true ∧
  Container.is_openable self = false ∧
  Container.open self = ((false, "You can't open that."), self) ∧
  Container.close self = ((false, "You can't close that."), self) ∧
  Container.lock self = ((false, "You can't lock that."), self) ∧
  Container.unlock self = ((false, "You can't unlock that."), self).
Proof.
  intros Hc Hs.
  assert (Container.surface self = true) as E
    by (unfold Container.surface; by rewrite Hc).
  unfold Container.is_open, Container.is_openable, Container.open,
    Container.close, Container.lock, Container.unlock.
  by rewrite E.
Qed.

Lemma surface_refuses_transitions_witness :
  Container.is_open table = true ∧
  Container.is_openable table = false ∧
  Container.open table = ((false, "You can't open that."), table) ∧
  Container.close table = ((false, "You can't close that."), table) ∧
  Container.lock table = ((false, "You can't lock that."), table) ∧
  Container.unlock table = ((false, "You can't unlock that."), table).
Proof.
  apply (surface_refuses_transitions table (mkTexts "" "") (mkItem 20 0 0 "")
           (mkContainer 50 true)); reflexivity.
Defined.

(** X7: the four transitions write nothing but [flags], and a transition
    that reports failure writes nothing at all. *)
Theorem transitions_write_flags_only (self : GameObject) :
  Forall (λ transition : GameObject → (bool * string) * GameObject,
            with_flags (flags self) (snd (transition self)) = self ∧
            (fst (fst (transition self)) = false →
             snd (transition self) = self))
    [Container.open; Container.close; Container.lock; Container.unlock].
Proof.
  assert (∀ f, with_flags (flags self) (with_flags f self) = self) as E
    by (intros; by destruct self).
  pose proof (with_flags_same self) as E0.
  repeat constructor;
    unfold Container.open, Container.close, Container.lock, Container.unlock,
      set_flag, clear_flag;
    repeat case_match; simpl; done.
Qed.

(** ** Items: light sources and weight *)

Lemma turn_on_off (self : GameObject) :
  if Item.is_light_source self then
    fst (Item.turn_on self) = true ∧
    Item.is_on (snd (Item.turn_on self)) = true ∧
    Item.is_light_source (snd (Item.turn_on self)) = true ∧
    fst (Item.turn_off self) = true ∧
    Item.is_on (snd (Item.turn_off self)) = false ∧
    Item.is_light_source (snd (Item.turn_off self)) = true
  else
    Item.turn_on self = (false, self) ∧ Item.turn_off self = (false, self).
Proof.
  unfold Item.turn_on, Item.turn_off.
  destruct (Item.is_light_source self) eqn:Hl; [|done]. cbn [negb fst snd].
  unfold Item.is_on, Item.is_light_source, ObjectFlag.ONBIT,
    ObjectFlag.LIGHTBIT in *.
  rewrite !has_flag_set_flag, !has_flag_clear_flag by lia. rewrite Hl.
  by rewrite orb_true_r, andb_false_r.
Qed.

(** X8: on a light source [turn_on()] and [turn_off()] succeed, leave the
    item on and off respectively, and keep it a light source; on any other
    item both return [False] and change nothing. *)
Theorem turn_on_turn_off (self : GameObject) :
  if Item.is_light_source self then
    fst (Item.turn_on self) = true ∧
    Item.is_on (snd (Item.turn_on self)) = true ∧
    Item.is_light_source (snd (Item.turn_on self)) = true ∧
    fst (Item.turn_off self) = true ∧
    Item.is_on (snd (Item.turn_off self)) = false ∧
    Item.is_light_source (snd (Item.turn_off self)) = true
  else
    Item.turn_on self = (false, self) ∧ Item.turn_off self = (false, self).
Proof. apply turn_on_off. Qed.

Lemma lit_among_found (w : World) objs x o :
  (∀ y, y ∈ objs → is_Some (w !! y)) →
  x ∈ objs → w !! x = Some o →
  has_flag ObjectFlag.LIGHTBIT o && has_flag ObjectFlag.ONBIT o = true →
  Room.lit_among w objs = Some true.
Proof.
  intros Hall Hx Ho Hlit. induction objs as [|y objs IH]; [by apply elem_of_nil in Hx|].
  simpl. destruct (Hall y) as [oy Hoy]; [by left|]. rewrite Hoy. simpl.
  destruct (has_flag ObjectFlag.LIGHTBIT oy && has_flag ObjectFlag.ONBIT oy)
    eqn:E; [done|].
  apply IH.
  - intros z Hz. apply Hall. by right.
  - apply elem_of_cons in Hx as [->|Hx]; [|done]. congruence.
Qed.

Lemma lit_among_none (w : World) objs :
  (∀ y, y ∈ objs → ∃ o, w !! y = Some o ∧
     has_flag ObjectFlag.LIGHTBIT o && has_flag ObjectFlag.ONBIT o = false) →
  Room.lit_among w objs = Some false.
Proof.
  induction objs as [|y objs IH]; intros Hall; [done|].
  simpl. destruct (Hall y) as (oy & Hoy & E); [by left|]. rewrite Hoy. simpl.
  rewrite E. apply IH. intros z Hz. apply Hall. by right.
Qed.

Lemma after_lookup {A} (m : GameObject → A * GameObject) (w : World) x y :
  after m x w !! y
  = if decide (x = y) then (λ o, snd (m o)) <$> w !! y else w !! y.
Proof.
  unfold after. case_decide as E.
  - subst. apply lookup_alter_eq.
  - by apply lookup_alter_ne.
Qed.

Lemma turn_on_fields o :
  class (snd (Item.turn_on o)) = class o ∧
  contents (snd (Item.turn_on o)) = contents o ∧
  location (snd (Item.turn_on o)) = location o.
Proof. unfold Item.turn_on. by destruct (negb _). Qed.

Lemma turn_off_fields o :
  class (snd (Item.turn_off o)) = class o ∧
  contents (snd (Item.turn_off o)) = contents o ∧
  location (snd (Item.turn_off o)) = location o.
Proof. unfold Item.turn_off. by destruct (negb _). Qed.

(** X9: switching on a light source that lies directly in a room makes
    the room lit. *)
Theorem turn_on_lights_room (w : World) (room x : oid) (ro o : GameObject) :
  w !! room = Some ro →
  is_room ro = true →
  (∀ y, y ∈ contents ro → is_Some (w !! y)) →
  x ∈ contents ro →
  w !! x = Some o →
  Item.is_light_source o = true →
  Room.is_lit (after Item.turn_on x w) room = Some true.
Proof.
  intros Hro Hroom Hall Hx Ho Hlight.
  pose proof (turn_on_fields ro) as (Hc & Hk & _).
  assert (∃ ro', after Item.turn_on x w !! room = Some ro' ∧
                 class ro' = class ro ∧ contents ro' = contents ro)
    as (ro' & Hro' & Hc' & Hk').
  { rewrite after_lookup. case_decide; rewrite Hro; by eexists. }
  unfold Room.is_lit. rewrite Hro'. simpl.
  unfold room_fields, is_room in *. rewrite Hc'.
  destruct (class ro) as [|r| | |]; try done. simpl.
  destruct (0 <? light_level r); [done|]. rewrite Hk'.
  apply (lit_among_found _ _ x (snd (Item.turn_on o))).
  - intros y Hy. rewrite after_lookup.
    destruct (Hall y Hy) as [oy Hoy]. rewrite Hoy. case_decide; by eexists.
  - done.
  - rewrite after_lookup, decide_True, Ho by done. done.
  - pose proof (turn_on_off o) as Hon.  rewrite Hlight in Hon.
    destruct Hon as (_ & Hon & Hl & _).
    unfold Item.is_on, Item.is_light_source in *. by rewrite Hon, Hl.
Qed.

(** X10: in a room without light of its own, switching off a light source
    leaves the room dark when no other object lying directly in the room
    is a light source that is on. *)
Theorem turn_off_darkens_room (w : World) (room x : oid) (ro o : GameObject)
    (r : RoomFields) :
  w !! room = Some ro →
  room_fields ro = Some r →
  light_level r ≤ 0 →
  w !! x = Some o →
  Item.is_light_source o = true →
  (∀ y, y ∈ contents ro → y ≠ x →
     ∃ oy, w !! y = Some oy ∧
       has_flag ObjectFlag.LIGHTBIT oy && has_flag ObjectFlag.ONBIT oy = false) →
  Room.is_lit (after Item.turn_off x w) room = Some false.
Proof.
  intros Hro Hr Hdark Ho Hlight Hothers.
  pose proof (turn_off_fields ro) as (Hc & Hk & _).
  assert (∃ ro', after Item.turn_off x w !! room = Some ro' ∧
                 class ro' = class ro ∧ contents ro' = contents ro)
    as (ro' & Hro' & Hc' & Hk').
  { rewrite after_lookup. case_decide; rewrite Hro; by eexists. }
  unfold Room.is_lit. rewrite Hro'. simpl.
  unfold room_fields in *. rewrite Hc', Hr. simpl.
  destruct (Z.ltb_spec 0 (light_level r)); [lia|]. rewrite Hk'.
  apply lit_among_none. intros y Hy. rewrite after_lookup.
  destruct (decide (x = y)) as [<-|Hne].
  - rewrite Ho. eexists. split; [done|].
    pose proof (turn_on_off o) as Hoff. rewrite Hlight in Hoff.
    destruct Hoff as (_ & _ & _ & _ & Hoff & _).
    unfold Item.is_on in Hoff. by rewrite Hoff, andb_false_r.
  - by apply Hothers.
Qed.

Lemma turn_on_lights_room_witness :
  Room.is_lit (after Item.turn_on Cellar.lamp lamp_off_on_floor) Cellar.cellar
  = Some true.
Proof.
  eapply (turn_on_lights_room lamp_off_on_floor Cellar.cellar Cellar.lamp).
  - vm_compute. reflexivity.
  - reflexivity.
  - intros y Hy. apply list_elem_of_singleton in Hy as ->.
    vm_compute. by eexists.
  - apply list_elem_of_here.
  - vm_compute. reflexivity.
  - reflexivity.
Defined.

Lemma turn_off_darkens_room_witness :
  Room.is_lit (after Item.turn_off Cellar.lamp Cellar.lamp_on_floor)
    Cellar.cellar
  = Some false.
Proof.
  eapply (turn_off_darkens_room Cellar.lamp_on_floor Cellar.cellar Cellar.lamp).
  - vm_compute. reflexivity.
  - reflexivity.
  - simpl. lia.
  - vm_compute. reflexivity.
  - reflexivity.
  - intros y Hy Hne. apply list_elem_of_singleton in Hy. done.
Defined.

(** *** Weight *)

Lemma contents_weight_bound (w : World) weigh objs total :
  (∀ x z, x ∈ objs → weigh x = Some z → 0 ≤ z) →
  Item.contents_weight w weigh objs = Some total → 0 ≤ total.
Proof.
  revert total. induction objs as [|x rest IH]; intros total Hw; simpl.
  - intros [= <-]. lia.
  - destruct (w !! x) as [o|]; [|done]. simpl.
    destruct (if Item.has_get_weight o then weigh x else Some 0)
      as [mine|] eqn:Hm; [|done]. simpl.
    destruct (Item.contents_weight w weigh rest) as [others|] eqn:Hr; [|done].
    simpl. intros [= <-].
    assert (0 ≤ mine).
    { destruct (Item.has_get_weight o).
      - apply (Hw x); [by left|done].
      - injection Hm as <-. lia. }
    assert (0 ≤ others).
    { apply IH; [|done]. intros y z Hy. apply Hw. by right. }
    lia.
Qed.

(** X11: when no item of the store has a negative size, the weight
    [get_weight()] returns for an item is at least the item's own size,
    and is not negative. *)
Theorem get_weight_at_least_size (fuel : nat) (w : World) (self : oid)
    (total : Z) :
  (∀ x o i, w !! x = Some o → Item.item_fields o = Some i → 0 ≤ size i) →
  Item.get_weight fuel w self = Some total →
  ∃ o i, w !! self = Some o ∧ Item.item_fields o = Some i ∧
         0 ≤ size i ≤ total.
Proof.
  intros Hsizes. revert self total.
  induction fuel as [|fuel IH]; intros self total; [done|]. simpl.
  destruct (w !! self) as [o|] eqn:Ho; [|done]. simpl.
  destruct (Item.item_fields o) as [i|] eqn:Hi; [|done]. simpl.
  destruct (Item.contents_weight w (Item.get_weight fuel w) (contents o))
    as [inside|] eqn:Hin; [|done].
  simpl. intros [= <-]. exists o, i. split; [done|]. split; [done|].
  assert (0 ≤ inside).
  { eapply contents_weight_bound; [|exact Hin].
    intros x z _ Hz. destruct (IH x z Hz) as (? & ? & _ & _ & ?). lia. }
  pose proof (Hsizes self o i Ho Hi). lia.
Qed.

Lemma get_weight_at_least_size_witness :
  ∃ o i, Scenario.coin_inside !! Scenario.box = Some o ∧
         Item.item_fields o = Some i ∧ 0 ≤ size i ≤ 6.
Proof.
  apply (get_weight_at_least_size 3 Scenario.coin_inside Scenario.box 6).
  - assert (map_Forall
              (λ _ o, Is_true match Item.item_fields o with
                              | Some i => bool_decide (0 ≤ size i)
                              | None => true
                              end) Scenario.coin_inside) as Hall.
    { apply (bool_decide_unpack _). vm_compute. exact I. }
    intros x o i Hx Hi. specialize (Hall x o Hx). simpl in Hall.
    rewrite Hi in Hall.
    by apply bool_decide_unpack in Hall.
  - vm_compute. reflexivity.
Defined.

(** ** Visible contents *)

Lemma not_invisible_total (w : World) objs :
  (∀ x, x ∈ objs → is_Some (w !! x)) →
  not_invisible w objs = Some (List.filter (visible_in w) objs).
Proof.
  induction objs as [|x rest IH]; intros Hall; [done|].
  destruct (Hall x) as [o Ho]; [by left|].
  simpl. unfold visible_in at 1. rewrite Ho, IH; simpl.
  - by destruct (negb (has_flag ObjectFlag.INVISIBLE o)).
  - intros y Hy. apply Hall. by right.
Qed.

(** X12: [get_visible_contents()] gives nothing for a container that is
    closed, not transparent and not a surface; for any other container it
    gives the contents that are not flagged invisible, in the order of
    [contents]. *)
Theorem get_visible_contents_spec (w : World) (self : oid) (o : GameObject) :
  w !! self = Some o →
  (∀ x, x ∈ contents o → is_Some (w !! x)) →
  get_visible_contents w self
  = Some (if Container.is_open o || Container.is_transparent o
             || Container.surface o
          then List.filter (visible_in w) (contents o)
          else []).
Proof.
  intros Ho Hall. unfold get_visible_contents. rewrite Ho. simpl.
  destruct (Container.is_open o || Container.is_transparent o
            || Container.surface o); [|done].
  by apply not_invisible_total.
Qed.

Lemma get_visible_contents_spec_witness :
  get_visible_contents Scenario.box_closed Scenario.box = Some [] ∧
  get_visible_contents Scenario.box_reopened Scenario.box
  = Some [Scenario.coin].
Proof.
  split.
  - eapply eq_trans;
      [eapply (get_visible_contents_spec Scenario.box_closed Scenario.box);
         [vm_compute; reflexivity|]
      |vm_compute; reflexivity].
    intros x Hx. apply list_elem_of_singleton in Hx as ->.
    vm_compute. by eexists.
  - eapply eq_trans;
      [eapply (get_visible_contents_spec Scenario.box_reopened Scenario.box);
         [vm_compute; reflexivity|]
      |vm_compute; reflexivity].
    intros x Hx. apply list_elem_of_singleton in Hx as ->.
    vm_compute. by eexists.
Defined.

(** X13: the objects [describe()] selects for listing are the objects
    [get_visible_objects()] returns: the test written in [describe()]
    reads the invisible bit. *)
Theorem describe_lists_visible_objects (w : World) (self : oid)
    (o : GameObject) :
  w !! self = Some o →
  is_room o = true →
  Room.visible_objects w (contents o) = get_visible_objects w self.
Proof.
  intros Ho Hroom. unfold get_visible_objects. rewrite Ho. simpl.
  unfold room_fields, is_room in *. destruct (class o); try done. simpl.
  induction (contents o) as [|x rest IH]; [done|]. simpl.
  destruct (w !! x) as [ox|]; [|done]. simpl.
  by rewrite IH, describe_filter_is_invisible.
Qed.

Lemma describe_lists_visible_objects_witness :
  ∃ o, Hall.world !! Hall.hall = Some o ∧ is_room o = true ∧
       Room.visible_objects Hall.world (contents o)
       = get_visible_objects Hall.world Hall.hall.
Proof.
  eexists. split; [vm_compute; reflexivity|]. split; [reflexivity|].
  apply describe_lists_visible_objects; [vm_compute; reflexivity|reflexivity].
Defined.

(** ** Rooms: entering, looking, describing again *)

(** [describe] adds one line for each object it lists. *)
Lemma describe_objects_length (w : World) objs lines w' :
  Room.describe_objects w objs = Some (lines, w') →
  length lines = length objs.
Proof.
  revert w lines w'. induction objs as [|x l IH]; intros w lines w'; simpl.
  - by intros [= <- <-].
  - destruct (w !! x) as [ox|]; [|done]. simpl.
    destruct (match get_fdesc ox with
              | Some f0 => _ | None => _ end) as [line w1].
    destruct (Room.describe_objects w1 l) as [[lines' w'']|] eqn:E; [|done].
    simpl. intros [= <- <-]. simpl. f_equal. by eapply IH.
Qed.

(** X15: after an [on_enter()] that no room action handles,
    [describe(verbose=False)] leaves the long description out: its text
    is the name, an empty line and, when objects are listed, one more
    empty line and the lines of the objects. *)
Theorem describe_after_on_enter (w : World) (self actor : oid)
    (o : GameObject) (r : RoomFields) :
  w !! self = Some o →
  room_fields o = Some r →
  (∀ f, room_action r = Some f → f "ENTER" (Some actor) None = false) →
  (∀ x, x ∈ contents o → is_Some (w !! x)) →
  ∃ w1 vis rest w2,
    Room.on_enter w self actor = Some (NOT_HANDLED, w1) ∧
    Room.visible_objects w1 (contents o) = Some vis ∧
    Room.describe false w1 self
    = Some (Room.join_lines ([short_desc o; ""] ++ rest), w2) ∧
    (vis = [] → rest = []) ∧
    (vis ≠ [] → ∃ lines, rest = "" :: lines ∧ length lines = length vis).
Proof.
  intros Ho Hr Hf Hall.
  set (r' := mkRoom true (light_level r) (room_action r)).
  set (o' := with_class (IsRoom r') o).
  set (w1 := <[self := o']> w).
  assert (Room.on_enter w self actor = Some (NOT_HANDLED, w1)) as Hent.
  { unfold Room.on_enter. rewrite Ho. simpl. rewrite Hr. simpl.
    destruct (room_action r) as [f|] eqn:Ha; [by rewrite (Hf f)|done]. }
  assert (Ho1 : w1 !! self = Some o') by (unfold w1; by rewrite lookup_insert_eq).
  assert (Hall1 : ∀ x, x ∈ contents o' → is_Some (w1 !! x)).
  { intros x Hx. unfold w1. destruct (decide (self = x)) as [->|].
    - rewrite lookup_insert_eq. by eexists.
    - rewrite lookup_insert_ne by done. by apply Hall. }
  change (contents o') with (contents o) in Hall1.
  destruct (visible_objects_total w1 (contents o) Hall1) as (vis & Hvis & Hsub).
  exists w1, vis. unfold Room.describe, Room.describe_parts.
  rewrite Ho1. simpl. rewrite Hvis. simpl.
  destruct vis as [|v vis'].
  - exists [], w1. simpl. repeat split; try done.
  - destruct (describe_objects_total w1 (v :: vis')) as (lines & w2 & Hd & _).
    { intros x Hx. by apply Hall1, Hsub. }
    rewrite Hd. simpl. exists ("" :: lines), w2.
    split; [done|]. split; [done|]. split; [done|]. split; [done|].
    intros _. exists lines. split; [done|].
    by apply (describe_objects_length _ _ _ _ Hd).
Qed.

Lemma describe_after_on_enter_witness :
  ∃ w1 vis rest w2,
    Room.on_enter Scenario.coin_inside Scenario.R Scenario.player
    = Some (NOT_HANDLED, w1) ∧
    Room.visible_objects w1 [Scenario.box; Scenario.player] = Some vis ∧
    Room.describe false w1 Scenario.R
    = Some (Room.join_lines (["R"; ""] ++ rest), w2) ∧
    (vis = [] → rest = []) ∧
    (vis ≠ [] → ∃ lines, rest = "" :: lines ∧ length lines = length vis).
Proof.
  apply (describe_after_on_enter Scenario.coin_inside Scenario.R
           Scenario.player
           (with_contents [Scenario.box; Scenario.player]
              (new_room "R" "R" "A bare room." 0))
           (mkRoom false 1 None)).
  - vm_compute. reflexivity.
  - reflexivity.
  - intros f Hf. discriminate Hf.
  - intros x Hx.
    apply elem_of_cons in Hx as [->|Hx]; [vm_compute; by eexists|].
    apply list_elem_of_singleton in Hx as ->. vm_compute; by eexists.
Defined.

(** *** Describing a second time *)

Lemma settled_insert_seen (w : World) x o y :
  w !! x = Some o →
  settled w y → settled (<[x := with_seen true o]> w) y.
Proof.
  intros Ho (oy & Hoy & Hs). destruct (decide (x = y)) as [->|Hne].
  - exists (with_seen true o). rewrite lookup_insert_eq. split; [done|]. by right.
  - exists oy. by rewrite lookup_insert_ne.
Qed.

(** After the loop of [describe], every object it went through is
    settled, and the objects that were settled still are. *)
Lemma describe_objects_settles (w : World) objs lines w' :
  Room.describe_objects w objs = Some (lines, w') →
  (∀ y, settled w y → settled w' y) ∧ (∀ y, y ∈ objs → settled w' y).
Proof.
  revert w lines w'. induction objs as [|x l IH]; intros w lines w'; simpl.
  - intros [= <- <-]. split; [done|]. by intros y ?%elem_of_nil.
  - destruct (w !! x) as [ox|] eqn:Hox; [|done]. simpl.
    set (later := match get_ldesc ox with
                  | Some l0 => l0
                  | None => "There is " +:+ short_desc ox +:+ " here."
                  end).
    assert (∃ line w1,
              match get_fdesc ox with
              | Some f => if negb (seen ox)
                          then (f, <[x := with_seen true ox]> w)
                          else (later, w)
              | None => (later, w)
              end = (line, w1) ∧
              (∀ y, settled w y → settled w1 y) ∧ settled w1 x)
      as (line & w1 & -> & Hmono & Hx).
    { destruct (get_fdesc ox) as [f|] eqn:Hf; [destruct (seen ox) eqn:Hs|];
        simpl; eexists _, _; (split; [reflexivity|]).
      - split; [done|]. exists ox. split; [done|by right].
      - split; [intros y; by apply settled_insert_seen|].
        exists (with_seen true ox). rewrite lookup_insert_eq.
        split; [done|by right].
      - split; [done|]. exists ox. split; [done|by left]. }
    destruct (Room.describe_objects w1 l) as [[lines' w'']|] eqn:E; [|done].
    simpl. intros [= <- <-].
    destruct (IH _ _ _ E) as [Hmono' Hl].
    split; [intros y Hy; by apply Hmono', Hmono|].
    intros y [->|Hy]%elem_of_cons; [by apply Hmono'|by apply Hl].
Qed.

(** On objects that are settled the loop changes nothing, and the lines
    it gives are the later lines. *)
Lemma describe_objects_settled (w : World) objs :
  (∀ y, y ∈ objs → settled w y) →
  Room.describe_objects w objs = Some (lines_of later_line w objs, w).
Proof.
  induction objs as [|x l IH]; intros Hall; [done|].
  destruct (Hall x) as (ox & Hox & Hs); [by left|].
  specialize (IH ltac:(intros y Hy; apply Hall; by right)).
  unfold lines_of in *. simpl. rewrite Hox. simpl.
  destruct Hs as [Hf|Hs]; [rewrite Hf|rewrite Hs; destruct (get_fdesc ox)];
    simpl; rewrite IH; done.
Qed.

(** On a list without repetition the lines of the loop are the first
    lines, each read in the store the loop starts from. *)
Lemma describe_objects_first_lines (w : World) objs lines w' :
  NoDup objs →
  Room.describe_objects w objs = Some (lines, w') →
  lines = lines_of first_line w objs.
Proof.
  intros Hnd. revert w lines w'.
  induction Hnd as [|x l Hx Hnd IH]; intros w lines w'; simpl.
  - by intros [= <- <-].
  - destruct (w !! x) as [ox|] eqn:Hox; [|done]. simpl.
    fold (later_line ox).
    assert (∃ w1,
              match get_fdesc ox with
              | Some f => if negb (seen ox)
                          then (f, <[x := with_seen true ox]> w)
                          else (later_line ox, w)
              | None => (later_line ox, w)
              end = (first_line ox, w1) ∧
              ∀ y, y ≠ x → w1 !! y = w !! y) as (w1 & -> & Hsame).
    { unfold first_line.
      destruct (get_fdesc ox) as [f|]; [destruct (seen ox)|]; simpl;
        eexists; (split; [reflexivity|]); try done.
      intros y Hy. by rewrite lookup_insert_ne. }
    destruct (Room.describe_objects w1 l) as [[lines' w'']|] eqn:E; [|done].
    simpl. intros [= <- <-]. f_equal.
    rewrite (IH _ _ _ E). unfold lines_of.
    apply Forall_fmap_ext_1, Forall_forall. intros y Hy.
    rewrite Hsame; [done|]. by intros ->.
Qed.

(** The objects selected for listing are among the contents, and are not
    repeated where the contents are not. *)
Lemma visible_objects_NoDup (w : World) objs vis :
  Room.visible_objects w objs = Some vis →
  vis ⊆ objs ∧ (NoDup objs → NoDup vis).
Proof.
  revert vis. induction objs as [|x rest IH]; intros vis; simpl.
  - intros [= <-]. split; [done|]. intros _. constructor.
  - destruct (w !! x) as [ox|]; [|done]. simpl.
    destruct (Room.visible_objects w rest) as [vis0|]; [|done]. simpl.
    destruct (IH vis0 eq_refl) as [Hsub Hnd].
    destruct (negb _); intros [= <-].
    + split.
      * intros y [->|Hy]%elem_of_cons; [by left|right; by apply Hsub].
      * intros [Hx Hr]%NoDup_cons. apply NoDup_cons. split; [|by apply Hnd].
        intros Hin. by apply Hx, Hsub.
    + split; [intros y Hy; right; by apply Hsub|].
      intros [_ Hr]%NoDup_cons. by apply Hnd.
Qed.

(** The later line of an object does not depend on its [seen] mark. *)
Lemma lines_of_later_seen_marked listed (w w' : World) objs :
  seen_marked listed w w' →
  lines_of later_line w' objs = lines_of later_line w objs.
Proof.
  intros Hm. unfold lines_of. apply Forall_fmap_ext_1, Forall_forall.
  intros x _. destruct (Hm x) as [->|(_ & o & -> & ->)]; done.
Qed.

(** X16: a first-seen text is emitted once.  On a room whose contents
    exist and are not repeated, [describe()] gives the head followed by
    the first line of each object it lists (the first-seen text of an
    object that has one and was not seen); every listed object is then
    settled, and a second [describe()] on the store the first leaves, in
    either mode, gives the head followed by the later line of each of
    these objects (its [ldesc] or the generic line, never the first-seen
    text) and changes nothing any more. *)
Theorem describe_twice (w : World) (self : oid) (o : GameObject)
    (r : RoomFields) (verbose verbose' : bool) :
  w !! self = Some o →
  room_fields o = Some r →
  (∀ x, x ∈ contents o → is_Some (w !! x)) →
  NoDup (contents o) →
  ∃ vis w1,
    Room.visible_objects w (contents o) = Some vis ∧
    Room.describe verbose w self
    = Some (Room.join_lines
              (describe_head verbose o r vis ++ lines_of first_line w vis),
            w1) ∧
    (∀ x, x ∈ vis → settled w1 x) ∧
    Room.describe verbose' w1 self
    = Some (Room.join_lines
              (describe_head verbose' o r vis ++ lines_of later_line w vis),
            w1).
Proof.
  intros Ho Hr Hall Hnd.
  destruct (visible_objects_total w (contents o) Hall) as (vis & Hvis & Hsub).
  destruct (visible_objects_NoDup _ _ _ Hvis) as [_ Hndv].
  specialize (Hndv Hnd).
  destruct (describe_objects_total w vis) as (lines & w1 & Hd & Hm).
  { intros x Hx. by apply Hall, Hsub. }
  pose proof (describe_objects_first_lines _ _ _ _ Hndv Hd) as ->.
  destruct (describe_objects_settles _ _ _ _ Hd) as [_ Hset].
  exists vis, w1. split; [done|].
  destruct (seen_marked_room _ _ _ _ _ _ Hm Ho Hr)
    as (o1 & Ho1 & Hr1 & Hc1 & Hs1 & Hl1).
  pose proof (visible_objects_seen_marked _ _ _ _ _ Hm Hvis) as Hvis1.
  pose proof (describe_objects_settled w1 vis Hset) as Hd'.
  rewrite (lines_of_later_seen_marked _ _ _ _ Hm) in Hd'.
  unfold describe_head.
  split; [|split; [done|]].
  - unfold Room.describe, Room.describe_parts.
    rewrite Ho. simpl. rewrite Hr. simpl. rewrite Hvis. simpl.
    destruct vis as [|v vis'].
    + simpl in Hd. injection Hd as <-.
      by destruct (verbose || negb (visited r)).
    + rewrite Hd. simpl. by destruct (verbose || negb (visited r)).
  - unfold Room.describe, Room.describe_parts.
    rewrite Ho1. simpl. rewrite Hr1. simpl. rewrite Hc1, Hvis1. simpl.
    rewrite Hs1, Hl1.
    destruct vis as [|v vis'].
    + by destruct (verbose' || negb (visited r)).
    + rewrite Hd'. simpl. by destruct (verbose' || negb (visited r)).
Qed.

Lemma describe_twice_witness :
  ∃ vis w1,
    Room.visible_objects Hallway.world [Hallway.leaflet] = Some vis ∧
    Room.describe false Hallway.world Hallway.hallway
    = Some (Room.join_lines
              (describe_head false Hallway.hallway_room (mkRoom false 1 None)
                 vis
               ++ lines_of first_line Hallway.world vis), w1) ∧
    (∀ x, x ∈ vis → settled w1 x) ∧
    Room.describe true w1 Hallway.hallway
    = Some (Room.join_lines
              (describe_head true Hallway.hallway_room (mkRoom false 1 None)
                 vis
               ++ lines_of later_line Hallway.world vis), w1).
Proof.
  apply (describe_twice Hallway.world Hallway.hallway
           (with_contents [Hallway.leaflet] Hallway.hallway_room)
           (mkRoom false 1 None)).
  - vm_compute. reflexivity.
  - reflexivity.
  - intros x Hx. apply list_elem_of_singleton in Hx as ->.
    vm_compute. by eexists.
  - apply NoDup_singleton.
Defined.

(** In the hallway the leaflet's first-seen text is given by the first
    [describe()] and its later text by the second. *)
Example hallway_described_twice :
  ∃ w1,
    Room.describe false Hallway.world Hallway.hallway
    = Some (Room.join_lines
              ["Hallway"; ""; "A narrow hallway."; "";
               "A leaflet lies on the floor, unread."], w1) ∧
    Room.describe false w1 Hallway.hallway
    = Some (Room.join_lines
              ["Hallway"; ""; "A narrow hallway."; "";
               "There is a leaflet here."], w1).
Proof. eexists. split; vm_compute; reflexivity. Qed.

(** ** Exits *)

(** X17: directions are looked up whatever their case: after
    [add_exit(d, room)], [get_exit(d')] gives the room for every [d'] with
    the same upper-case form as [d], and after [remove_exit(d)] it gives
    nothing; for a direction with another upper-case form both leave what
    [get_exit] gives as it was. *)
Theorem exits_round_trip (upper : string → string)
    (exits : gmap string Exit) (d d' : string) (room : oid) :
  get_exit upper (add_exit upper d (ExitRoom room) exits) d'
  = (if decide (upper d' = upper d) then Some room
     else get_exit upper exits d') ∧
  get_exit upper (remove_exit upper d exits) d'
  = (if decide (upper d' = upper d) then None
     else get_exit upper exits d').
Proof.
  unfold get_exit, add_exit, remove_exit.
  destruct (decide (upper d' = upper d)) as [->|Hne].
  - rewrite lookup_insert_eq. split; [done|].
    case_bool_decide as E.
    + by rewrite lookup_delete_eq.
    + destruct (exits !! upper d) eqn:E'; [|done].
      exfalso. apply E. by eexists.
  - rewrite lookup_insert_ne by done. split; [done|].
    case_bool_decide; [|done]. by rewrite lookup_delete_ne.
Qed.

(** The scenario of the demonstration world: an exit added as ["enter"]
    is found as ["ENTER"] and as ["Enter"]. *)
Example exits_any_case :
  let exits := add_exit upper_ascii "enter" (ExitRoom 7%nat) ∅ in
  get_exit upper_ascii exits "ENTER" = Some 7%nat ∧
  get_exit upper_ascii exits "Enter" = Some 7%nat ∧
  get_exit upper_ascii exits "WEST" = None ∧
  get_exit upper_ascii (remove_exit upper_ascii "Enter" exits) "enter" = None.
Proof. cbv zeta. repeat apply conj; by vm_compute. Qed.

(** ** [get_room] *)

Lemma get_room_nearest (fuel : nat) (w : World) (self room : oid) :
  get_room fuel w self = Some (Some room) →
  rtc (parent w) self room ∧
  (is_room <$> w !! room) = Some true ∧
  ∀ y, rtc (parent w) self y → (is_room <$> w !! y) = Some true →
       rtc (parent w) room y.
Proof.
  unfold get_room. revert self.
  induction fuel as [|fuel IH]; intros self; [done|]. simpl.
  destruct (w !! self) as [o|] eqn:Ho; [|done]. simpl.
  destruct (is_room o) eqn:Hroom.
  - intros [= <-]. rewrite Ho. simpl. rewrite Hroom. by repeat split.
  - destruct (location o) as [p|] eqn:Hp; [|by destruct fuel].
    intros Hrec. destruct (IH p Hrec) as (Hpath & Hr & Hnear).
    assert (parent w self p) as Hsp.
    { unfold parent, location_of. by rewrite Ho. }
    split; [by eapply rtc_l|]. split; [done|].
    intros y Hy Hyroom. inversion Hy as [|? p' ? Hsp' Hrest]; subst.
    + rewrite Ho in Hyroom. simpl in Hyroom. congruence.
    + apply Hnear; [|done]. unfold parent in *. congruence.
Qed.

Lemma get_room_none (fuel : nat) (w : World) (self : oid) :
  get_room fuel w self = Some None →
  ∀ y, rtc (parent w) self y → (is_room <$> w !! y) = Some false.
Proof.
  unfold get_room. revert self.
  induction fuel as [|fuel IH]; intros self; [done|]. simpl.
  destruct (w !! self) as [o|] eqn:Ho; [|done]. simpl.
  destruct (is_room o) eqn:Hroom; [done|].
  intros Hrec y Hy. inversion Hy as [|? p' ? Hsp' Hrest]; subst.
  - rewrite Ho. simpl. by rewrite Hroom.
  - unfold parent, location_of in Hsp'. rewrite Ho in Hsp'. simpl in Hsp'.
    rewrite Hsp' in Hrec. by apply (IH p').
Qed.

(** X18: the room [get_room()] returns is the object itself or one of its
    ancestors, it is a [Room], and every [Room] among the object and its
    ancestors is that room or lies above it: the room returned is the
    nearest one.  When [get_room()] returns [None], no [Room] is among the
    object and its ancestors. *)
Theorem get_room_result (fuel : nat) (w : World) (self : oid) :
  match get_room fuel w self with
  | Some (Some room) =>
      rtc (parent w) self room ∧
      (is_room <$> w !! room) = Some true ∧
      ∀ y, rtc (parent w) self y → (is_room <$> w !! y) = Some true →
           rtc (parent w) room y
  | Some None =>
      ∀ y, rtc (parent w) self y → (is_room <$> w !! y) = Some false
  | None => True
  end.
Proof.
  destruct (get_room fuel w self) as [[room|]|] eqn:E; [| |done].
  - by apply (get_room_nearest fuel).
  - by apply (get_room_none fuel).
Qed.

(** In the scenario [get_room()] finds room R from the coin in the box,
    and no room from a lamp that has no location. *)
Example get_room_scenario :
  get_room 3 Scenario.coin_inside Scenario.coin = Some (Some Scenario.R) ∧
  get_room 1 (<[5%nat := brass_lamp]> Scenario.coin_inside) 5%nat = Some None.
Proof. split; by vm_compute. Qed.

(** ** Accessibility *)

(** X19: an entity without a location is not accessible to any actor
    whose room [get_room()] can determine. *)
Theorem nowhere_not_accessible (fuel : nat) (w : World) (self actor : oid)
    (o : GameObject) (actor_room : option oid) :
  w !! self = Some o →
  location o = None →
  get_room fuel w actor = Some actor_room →
  is_accessible_to fuel w self actor = Some false.
Proof.
  intros Ho Hl Hr. rewrite (is_accessible_to_unfold _ _ _ _ _ Ho), Hr.
  unfold is_in. rewrite Hl. rewrite bool_decide_eq_false_2 by done.
  destruct actor_room as [r|].
  - rewrite bool_decide_eq_false_2 by done. by destruct fuel.
  - by destruct fuel.
Qed.

Lemma nowhere_not_accessible_witness :
  is_accessible_to 2 (<[5%nat := brass_lamp]> Scenario.coin_inside) 5%nat
    Scenario.player
  = Some false.
Proof.
  apply (nowhere_not_accessible 2 (<[5%nat := brass_lamp]> Scenario.coin_inside)
           5%nat Scenario.player brass_lamp (Some Scenario.R)).
  - vm_compute. reflexivity.
  - reflexivity.
  - vm_compute. reflexivity.
Defined.

(** X20: an entity that the actor holds, or that lies directly in the
    actor's room, is accessible, whatever containers are open or closed. *)
Theorem direct_access_granted (fuel : nat) (w : World) (self actor r : oid) :
  location_of w self = Some actor ∨
  (get_room fuel w actor = Some (Some r) ∧ location_of w self = Some r) →
  is_accessible_to fuel w self actor = Some true.
Proof.
  intros [Hheld|[Hr Hin]].
  - by apply held_is_accessible.
  - by eapply in_room_is_accessible.
Qed.

Lemma direct_access_granted_witness :
  is_accessible_to 2 Scenario.box_closed Scenario.box Scenario.player
  = Some true.
Proof.
  apply (direct_access_granted 2 Scenario.box_closed Scenario.box
           Scenario.player Scenario.R).
  right. split; vm_compute; reflexivity.
Defined.

(** X21: for an entity that the actor does not hold and that does not lie
    directly in the actor's room, [is_accessible_to()] answers [True] only
    if every ancestor of the entity, up to the root of the containment
    chain, has the open or the transparent bit in its flags. *)
Theorem nested_access_tests_every_ancestor (fuel : nat) (w : World)
    (self actor : oid) (o : GameObject) :
  w !! self = Some o →
  is_in o actor = false →
  (∀ r, get_room fuel w actor = Some (Some r) → is_in o r = false) →
  is_accessible_to fuel w self actor = Some true →
  ∀ x, tc (parent w) self x → see_through w x.
Proof. apply is_accessible_to_nested. Qed.

Lemma nested_access_tests_every_ancestor_witness :
  see_through open_hall Scenario.box ∧ see_through open_hall Scenario.R.
Proof.
  assert (∀ x, tc (parent open_hall) Scenario.coin x → see_through open_hall x)
    as H.
  { eapply (nested_access_tests_every_ancestor 4 open_hall Scenario.coin
              Scenario.player).
    - vm_compute. reflexivity.
    - reflexivity.
    - intros r Hr. vm_compute in Hr. injection Hr as <-. reflexivity.
    - vm_compute. reflexivity. }
  split; apply H.
  - apply tc_once. vm_compute. reflexivity.
  - eapply tc_l; [|apply tc_once]; vm_compute; reflexivity.
Defined.

(** ** [move_to]: invariant and frame *)

(** X22: [move_to()] keeps the single-parent invariant, allocates and
    frees nothing, and leaves every object other than the entity moved,
    its old parent and its new parent exactly as it was. *)
Theorem move_to_invariant_and_frame (w : World) (e : oid) (P : option oid) :
  forest w →
  is_Some (w !! e) →
  (∀ p, P = Some p → is_Some (w !! p)) →
  forest (move_to e P w) ∧
  (∀ x, is_Some (move_to e P w !! x) ↔ is_Some (w !! x)) ∧
  (∀ x, x ≠ e → location_of w e ≠ Some x → P ≠ Some x →
        move_to e P w !! x = w !! x).
Proof.
  intros Hf He HP. split; [by apply move_to_forest|].
  split; [intros x; apply move_to_allocated|].
  intros x Hxe Hxold Hxnew. unfold move_to.
  assert ((match location_of w e with
           | Some old => alter (detach e) old w
           | None => w
           end) !! x = w !! x) as E1.
  { destruct (location_of w e) as [old|]; [|done].
    apply lookup_alter_ne. congruence. }
  destruct P as [p|].
  - rewrite lookup_alter_ne by congruence.
    by rewrite lookup_alter_ne.
  - by rewrite lookup_alter_ne.
Qed.

Lemma move_to_invariant_and_frame_witness :
  forest (move_to Scenario.coin (Some Scenario.R) Scenario.coin_inside) ∧
  (∀ x, is_Some (move_to Scenario.coin (Some Scenario.R) Scenario.coin_inside
                   !! x)
        ↔ is_Some (Scenario.coin_inside !! x)) ∧
  (∀ x, x ≠ Scenario.coin →
        location_of Scenario.coin_inside Scenario.coin ≠ Some x →
        Some Scenario.R ≠ Some x →
        move_to Scenario.coin (Some Scenario.R) Scenario.coin_inside !! x
        = Scenario.coin_inside !! x).
Proof.
  apply (move_to_invariant_and_frame Scenario.coin_inside Scenario.coin
           (Some Scenario.R)).
  - exact scenario_forest.
  - vm_compute. by eexists.
  - intros p [= <-]. vm_compute. by eexists.
Defined.

(** ** Actors: inventory *)

Lemma drop_item_held (fuel : nat) (w : World) (self item r : oid)
    (o : GameObject) :
  forest w →
  w !! self = Some o →
  item ∈ contents o →
  get_room fuel w self = Some (Some r) →
  ∃ w', drop_item fuel w self item = Some (true, w') ∧
        location_of w' item = Some r ∧
        ∀ y, item ∈ contents_of w' y ↔ y = r.
Proof.
  intros Hf Ho Hin Hr.
  assert (parent w item self) as Hpar.
  { apply (Hf self). unfold contents_of. by rewrite Ho. }
  assert (is_Some (w !! item)) as Hitem.
  { unfold parent, location_of in Hpar. by destruct (w !! item); [eexists|]. }
  assert (is_Some (w !! r)) as Hroom.
  { destruct (get_room_nearest _ _ _ _ Hr) as (_ & Hk & _).
    by destruct (w !! r); [eexists|]. }
  exists (move_to item (Some r) w). split.
  - unfold drop_item, list_in. rewrite Ho. simpl.
    rewrite bool_decide_eq_true_2 by done. simpl. by rewrite Hr.
  - assert (∀ p, Some r = Some p → is_Some (w !! p)) as HP
      by (by intros p [= <-]).
    split.
    + rewrite location_of_move_to by done. by rewrite decide_True.
    + intros y.
      destruct (move_to_forest w item (Some r) Hf Hitem HP y) as [_ ->].
      unfold parent. rewrite location_of_move_to by done.
      rewrite decide_True by done. split; congruence.
Qed.

(** X23: [drop_item()] on an item the actor holds, when the actor is in a
    room, returns [True] and moves the item to that room: the room is
    then the item's location and the only object that lists it. *)
Theorem drop_item_moves_to_room (fuel : nat) (w : World) (self item r : oid)
    (o : GameObject) :
  forest w →
  w !! self = Some o →
  item ∈ contents o →
  get_room fuel w self = Some (Some r) →
  ∃ w', drop_item fuel w self item = Some (true, w') ∧
        location_of w' item = Some r ∧
        ∀ y, item ∈ contents_of w' y ↔ y = r.
Proof. apply drop_item_held. Qed.

(** X24: a [drop_item()] that returns [False] has changed nothing, and it
    returns [False] only for an item the actor does not hold or for an
    actor that is in no room. *)
Theorem drop_item_failure (fuel : nat) (w w' : World) (self item : oid) :
  drop_item fuel w self item = Some (false, w') →
  w' = w ∧
  (item ∉ contents_of w self ∨ get_room fuel w self = Some None).
Proof.
  unfold drop_item, contents_of, list_in.
  destruct (w !! self) as [o|]; [|done]. simpl.
  case_bool_decide as Hin; simpl.
  - destruct (get_room fuel w self) as [[r|]|]; simpl; try done.
    intros [= <-]. split; [done|by right].
  - intros [= <-]. split; [done|by left].
Qed.


Lemma coin_held_forest : forest coin_held.
Proof.
  apply move_to_forest.
  - exact scenario_forest.
  - vm_compute. by eexists.
  - intros p [= <-]. vm_compute. by eexists.
Qed.

Lemma drop_item_moves_to_room_witness :
  ∃ w', drop_item 2 coin_held Scenario.player Scenario.coin = Some (true, w') ∧
        location_of w' Scenario.coin = Some Scenario.R ∧
        ∀ y, Scenario.coin ∈ contents_of w' y ↔ y = Scenario.R.
Proof.
  eapply (drop_item_moves_to_room 2 coin_held Scenario.player Scenario.coin
            Scenario.R).
  - exact coin_held_forest.
  - vm_compute. reflexivity.
  - apply list_elem_of_here.
  - vm_compute. reflexivity.
Defined.

Lemma drop_item_failure_witness :
  Scenario.coin_inside = Scenario.coin_inside ∧
  (Scenario.coin ∉ contents_of Scenario.coin_inside Scenario.player ∨
   get_room 2 Scenario.coin_inside Scenario.player = Some None).
Proof.
  apply (drop_item_failure 2 Scenario.coin_inside Scenario.coin_inside
           Scenario.player Scenario.coin).
  vm_compute. reflexivity.
Defined.


(** ** Actors: combat *)

Lemma take_damage_alive (damage : Z) (target : ActorFields) :
  Actor.is_alive target = true →
  let actual := Z.min damage (health target) in
  Actor.take_damage damage target
  = if health target <=? damage
    then ((actual, true),
          Actor.with_health 0
            (Actor.with_is_dead true
               (Actor.with_health (health target - actual) target)))
    else ((actual, false), Actor.with_health (health target - actual) target).
Proof.
  unfold Actor.is_alive, Actor.take_damage.
  destruct (is_dead target); [done|]. simpl. intros _.
  destruct (Z.leb_spec (health target - Z.min damage (health target)) 0),
    (Z.leb_spec (health target) damage); try done; lia.
Qed.

(** X26: [attack()] by a dead attacker or on a dead target returns
    (False, 0, message), leaves the target as it was and draws no random
    number; between two living actors, with a random source that behaves
    as [random.randint] does, it raises exactly when the damage before
    the random factor is negative. *)
Theorem attack_outcomes (randint : Z → Z → option Z) (self : ActorFields)
    (target_desc : string) (target : ActorFields)
    (weapon : option (GameObject * gmap string Z)) :
  (Actor.is_alive self = false →
   attack randint self target_desc target weapon
   = Some ((false, 0, "You are dead and cannot attack."), target)) ∧
  (Actor.is_alive self = true → Actor.is_alive target = false →
   attack randint self target_desc target weapon
   = Some ((false, 0, "The " +:+ target_desc +:+ " is already dead."),
           target)) ∧
  (randint_spec randint →
   Actor.is_alive self = true → Actor.is_alive target = true →
   (attack randint self target_desc target weapon = None
    ↔ base_damage self weapon < 0)).
Proof.
  unfold attack. split; [by intros ->|]. split; [by intros -> ->|].
  intros Hspec -> ->. simpl.
  set (base := base_damage self weapon).
  destruct (Hspec (base `div` 2) (base * 2)) as [Hempty Hrange].
  split.
  - intros Hnone. destruct (Z.lt_ge_cases base 0) as [|Hge]; [done|].
    destruct Hrange as (roll & Hroll & _).
    { assert (base `div` 2 ≤ base) by (apply Z.div_le_upper_bound; lia). lia. }
    rewrite Hroll in Hnone. simpl in Hnone.
    by destruct (Actor.take_damage roll target) as [[? ?] ?].
  - intros Hneg. rewrite Hempty; [done|].
    assert (base ≤ base `div` 2) by (apply Z.div_le_lower_bound; lia). lia.
Qed.

(** X27: between two living actors, when the random source draws [roll],
    [attack()] applies the roll clamped to the target's health: that is
    the damage returned, the first component says whether it is positive,
    the target loses it, and the target dies exactly when the roll
    reaches its health.  With a random source that behaves as
    [random.randint] does, the damage is between 0 and twice the damage
    before the random factor. *)
Theorem attack_applies_roll (randint : Z → Z → option Z) (self : ActorFields)
    (target_desc : string) (target : ActorFields)
    (weapon : option (GameObject * gmap string Z)) (roll : Z) :
  Actor.is_alive self = true →
  Actor.is_alive target = true →
  randint (base_damage self weapon `div` 2) (base_damage self weapon * 2)
  = Some roll →
  let damage := Z.min roll (health target) in
  ∃ message target',
    attack randint self target_desc target weapon
    = Some ((0 <? damage, damage, message), target') ∧
    health target' = health target - damage ∧
    is_dead target' = (health target <=? roll) ∧
    max_health target' = max_health target ∧
    (randint_spec randint → 0 ≤ damage ≤ base_damage self weapon * 2).
Proof.
  intros Hs Ht Hroll damage. unfold attack. rewrite Hs, Ht. simpl.
  rewrite Hroll. simpl. rewrite (take_damage_alive roll target Ht).
  fold damage.
  assert (randint_spec randint → 0 ≤ damage ≤ base_damage self weapon * 2)
    as Hbound.
  { intros Hspec.
    set (base := base_damage self weapon) in *.
    destruct (Hspec (base `div` 2) (base * 2)) as [Hempty Hrange].
    destruct (Z.lt_ge_cases (base * 2) (base `div` 2)) as [Hlt|Hge].
    - rewrite Hempty in Hroll by done. done.
    - destruct Hrange as (r & Hr & Hr1 & Hr2); [done|].
      rewrite Hroll in Hr. injection Hr as <-.
      assert (0 ≤ base).
      { destruct (Z.lt_ge_cases base 0); [|done].
        assert (base ≤ base `div` 2) by (apply Z.div_le_lower_bound; lia).
        lia. }
      assert (0 ≤ base `div` 2) by (apply Z.div_pos; lia).
      unfold Actor.is_alive in Ht.
      apply andb_prop in Ht as [_ Hh%Z.ltb_lt]. unfold damage. lia. }
  unfold Actor.is_alive in Ht. apply andb_prop in Ht as [Hd Hh%Z.ltb_lt].
  apply negb_true_iff in Hd.
  destruct (Z.leb_spec (health target) roll); eexists _, _;
    (split; [reflexivity|]); simpl;
    (split; [unfold damage; lia|]); (split; [done|]); (split; [done|]);
    exact Hbound.
Qed.

Lemma lowest_roll_spec : randint_spec lowest_roll.
Proof.
  intros a b. unfold lowest_roll. split.
  - intros Hlt. by rewrite (proj2 (Z.ltb_lt b a)).
  - intros Hle. rewrite (proj2 (Z.ltb_ge b a)) by done.
    exists a. split; [done|lia].
Qed.

Lemma attack_applies_roll_witness :
  ∃ message target',
    attack lowest_roll (Actor.init 10 4 false) "troll" (Actor.init 10 1 true)
      (Some sword)
    = Some ((0 <? Z.min 3 10, Z.min 3 10, message), target') ∧
    health target' = 10 - Z.min 3 10 ∧
    is_dead target' = (10 <=? 3) ∧
    max_health target' = 10 ∧
    (randint_spec lowest_roll → 0 ≤ Z.min 3 10 ≤ 7 * 2).
Proof.
  apply (attack_applies_roll lowest_roll (Actor.init 10 4 false) "troll"
           (Actor.init 10 1 true) (Some sword) 3); reflexivity.
Defined.

(** ** Output *)

Lemma append_empty_r (s : string) : s +:+ "" = s.
Proof.
  induction s as [|c s IH]; [done|].
  change (String c s +:+ "") with (String c (s +:+ "")). by rewrite IH.
Qed.

Lemma output_parts_plain (s : string) (rest : list Output.Arg) :
  s ∉ markers →
  Output.output_parts (Output.Str s :: rest)
  = cons s <$> Output.output_parts rest.
Proof.
  intros Hs. simpl.
  assert (∀ m, m ∈ markers → String.eqb s m = false) as Hm.
  { intros m Hin. apply String.eqb_neq. by intros ->. }
  rewrite !Hm by (unfold markers; set_solver). done.
Qed.

(** X28: [tell()] of strings none of which is a marker prints the strings
    one after the other, followed by [end]. *)
Theorem tell_plain_strings (strs : list string) (end_ : string) :
  Forall (λ s, s ∉ markers) strs →
  Output.tell (Output.Str <$> strs) end_
  = Some (Output.join strs +:+ end_).
Proof.
  intros Hall. unfold Output.tell.
  assert (Output.output_parts (Output.Str <$> strs) = Some strs) as ->.
  { induction Hall as [|s strs Hs _ IH]; [done|].
    rewrite fmap_cons, output_parts_plain by done. by rewrite IH. }
  done.
Qed.

Lemma tell_plain_strings_witness :
  Output.tell (Output.Str <$> ["West of "; "House"]) Output.newline
  = Some (Output.join ["West of "; "House"] +:+ Output.newline).
Proof.
  apply (tell_plain_strings ["West of "; "House"]).
  repeat constructor; unfold markers; intros H;
    repeat (apply elem_of_cons in H as [H|H]; [discriminate H|]);
    by apply elem_of_nil in H.
Defined.

(** X29: [print_room_header()] and [print_error()] hand their text to
    [tell()], which reads it as a marker: the text ["A"] raises an
    [IndexError], the texts ["CR"] and ["CRLF"] print an empty line, and
    every other text is printed as it is, followed by a newline. *)
Theorem print_room_header_markers (room_name : string) :
  Output.print_room_header room_name
  = (if decide (room_name = "A") then None
     else if decide (room_name = "CR" ∨ room_name = "CRLF")
          then Some (Output.newline +:+ Output.newline)
          else Some (room_name +:+ Output.newline)) ∧
  Output.print_error room_name = Output.print_room_header room_name.
Proof.
  split; [|done].
  unfold Output.print_room_header, Output.tell. simpl.
  destruct (String.eqb_spec room_name "CR") as [->|Hcr]; [done|].
  destruct (String.eqb_spec room_name "CRLF") as [->|Hcrlf]; [done|].
  destruct (String.eqb_spec room_name "D") as [->|Hd]; simpl; [done|].
  destruct (String.eqb_spec room_name "A") as [->|Ha]; simpl; [done|].
  rewrite decide_False by done.
  rewrite decide_False by (by intros [?|?]).
  destruct (String.eqb_spec room_name "AN") as [->|Han]; simpl; [done|].
  destruct (String.eqb_spec room_name "N") as [->|Hn]; simpl; [done|].
  by rewrite append_empty_r.
Qed.

Lemma tell_inventory_line (item : Output.Arg) :
  Output.tell [Output.Str ("  " +:+ Output._get_description item)]
    Output.newline
  = Some (inventory_line item).
Proof.
  unfold Output.tell, inventory_line. simpl.
  by rewrite append_empty_r.
Qed.

Lemma print_items_lines (items : list Output.Arg) :
  Output.print_items items = Some (Output.join (inventory_line <$> items)).
Proof.
  induction items as [|item rest IH]; [done|].
  cbn [Output.print_items]. rewrite tell_inventory_line, IH. done.
Qed.

(** X30: [print_inventory()] never fails: for an empty list it prints "You
    are empty-handed."; otherwise it prints "You are carrying:" and one
    line for each item, two spaces and the description of the item,
    whatever that description is. *)
Theorem print_inventory_lines (items : list Output.Arg) :
  Output.print_inventory items
  = Some (match items with
          | [] => "You are empty-handed." +:+ Output.newline
          | _ :: _ =>
              ("You are carrying:" +:+ Output.newline)
              +:+ Output.join (inventory_line <$> items)
          end).
Proof.
  destruct items as [|item rest]; [done|].
  unfold Output.print_inventory. rewrite print_items_lines. done.
Qed.
